(** * Minter_Marketplace: offer catalog and purchase settlement

    A shallow embedding of
    [smart-contracts/contracts/Marketplaces/MarketplaceMinter.sol]
    (Solidity ^0.8.4, checked arithmetic) and the properties of its catalog
    and settlement logic.

    Conventions of the embedding:
    - [uint256], [uint16] and the [uint24] of the literal [100000] are [Z];
      every arithmetic operation the compiler checks is written with
      [checked], which panics outside the type's range;
    - dynamic storage arrays are lists read with [index], which panics out of
      bounds as the compiled code does;
    - the mapping [_contractToOffer] is a [gmap] read with default [0];
    - a call runs in the monad [M]: it either returns a new machine state or
      reverts with an [Error]; [transact] gives the transaction semantics
      (a revert leaves the machine as it was);
    - the external collection, the access control and the receivers of
      payments are oracles gathered in [Env]; they may answer differently at
      each call, and an oracle answering [None] is a collaborator that
      reverts. Collaborators do not call back into the marketplace. *)

From stdpp Require Import gmap strings list.
From Stdlib Require Import ZArith Lia.

Local Open Scope Z_scope.

(** ** Data model *)

Definition address := Z.
Definition address_zero : address := 0.

Definition uint256_max : Z := 2 ^ 256 - 1.
Definition uint16_max : Z := 65535.
Definition uint24_max : Z := 16777215.

(** [struct offer] *)
Record offer := mkOffer {
  contractAddress : address;
  nodeAddress : address;
  productIndex : Z;
  tokenRangeStart : list Z;
  tokenRangeEnd : list Z;
  tokensAllowed : list Z;
  rangePrice : list Z;
  rangeName : list string
}.

(** The storage variables of the contract, with [_owner] of the parent
    [OwnableUpgradeable]. *)
Record Storage := mkStorage {
  _contractToOffer : gmap Z Z;
  offerCatalog : list offer;
  treasury : address;
  openSales : Z;
  treasuryFee : Z;
  nodeFee : Z;
  _owner : address
}.

Inductive Event :=
| AddedOffer (contractAddr : address) (productIdx rangesCreated catalogIndex : Z)
| UpdatedOffer (contractAddr : address) (offerIndex rangeIndex tokens price : Z) (name : string)
| AppendedRange (contractAddr : address) (productIdx offerIndex rangeIndex startToken endToken price : Z) (name : string)
| TokenMinted (ownerAddress contractAddr : address) (catalogIndex rangeIndex tokenIndex : Z)
| SoldOut (contractAddr : address) (catalogIndex rangeIndex : Z)
| ChangedTreasury (newTreasury : address)
| ChangedTreasuryFee (treasuryAddr : address) (newTreasuryFee : Z)
| ChangedNodeFee (newNodeFee : Z).

(** What a call does to the outside world, in program order. A mint call
    records the storage the collection is called with. *)
Inductive Effect :=
| Emit (e : Event)
| Transfer (to : address) (amount : Z)
| MintCall (seen : Storage) (collection to : address) (productIdx tokenIndex : Z).

Record Machine := mkMachine {
  storage : Storage;
  balance : Z;
  log : list Effect
}.

(** The reverts of the contract, named as in the specification, the two
    compiler panics, and the failures of collaborators. *)
Inductive Error :=
| NotAuthorizedAsMinter
| NotAuthorizedAsCreator
| NoOfferForCollection
| OfferAlreadyExists
| RangeLengthMismatch
| NoMintableSupply
| InvalidRangeBounds
| RangeExpansionNotAllowed
| InvalidOffer
| InvalidRange
| RangeSoldOut
| TokenOutsideRange
| InsufficientFunds
| NotOwner
| PanicArithmetic
| PanicIndexOutOfBounds
| CollaboratorReverted
| TransferFailed.

(** The revert strings of the source. *)
Definition reason (e : Error) : string :=
  match e with
  | NotAuthorizedAsMinter => "Minting Marketplace: This Marketplace isn't a Minter!"
  | NotAuthorizedAsCreator => "Minting Marketplace: Sender isn't the creator!"
  | NoOfferForCollection => "Minting Marketplace: Contract address doesn't have an offer associated!"
  | OfferAlreadyExists => "Minting Marketplace: An offer already exists!"
  | RangeLengthMismatch => "Minting Marketplace: Offer's ranges should have the same length!"
  | NoMintableSupply => "Minting Marketplace: Cannot mint more tokens from this Product!"
  | InvalidRangeBounds => "Minting Marketplace: Range's starting token has to be less than the range's ending token!"
  | RangeExpansionNotAllowed => "Minting Marketplace: New limits must be within the previous limits!"
  | InvalidOffer => "Minting Marketplace: Invalid Collection Selected!"
  | InvalidRange => "Minting Marketplace: Invalid range!"
  | RangeSoldOut => "Minting Marketplace: Cannot mint more tokens for this range!"
  | TokenOutsideRange => "Minting Marketplace: Token doesn't belong in that offer range!"
  | InsufficientFunds => "Minting Marketplace: Insuficient Funds!"
  | NotOwner => "Ownable: caller is not the owner"
  | PanicArithmetic => "Panic(0x11)"
  | PanicIndexOutOfBounds => "Panic(0x32)"
  | CollaboratorReverted => "external call reverted"
  | TransferFailed => "transfer failed"
  end.

Inductive Role := MINTER | CREATOR.

(** The collaborators, as seen during one call. *)
Record Env := mkEnv {
  this : address;
  hasRole : address -> Role -> address -> option bool;
  getCollection_mintableTokensLeft : address -> Z -> option Z;
  supportsInterface_IERC2981 : address -> option bool;
  royaltyInfo : address -> Z -> Z -> string -> option (address * Z);
  acceptsTransfer : address -> Z -> bool;
  mint : address -> address -> Z -> Z -> bool
}.

(** [msg.sender] and [msg.value] *)
Record Ctx := mkCtx {
  sender : address;
  value : Z
}.

(** ** The execution monad *)

Inductive Result (A : Type) :=
| Ok (a : A)
| Err (e : Error).
Arguments Ok {A} a.
Arguments Err {A} e.

Definition M (A : Type) : Type := Machine -> Result (A * Machine).

Definition ret {A} (a : A) : M A := fun σ => Ok (a, σ).

Definition bind {A B} (m : M A) (k : A -> M B) : M B :=
  fun σ => match m σ with
           | Ok (a, σ') => k a σ'
           | Err e => Err e
           end.

Notation "'let*' x ':=' m 'in' k" := (bind m (fun x => k))
  (at level 10, x binder, m at level 100, k at level 200).

Definition throw {A} (e : Error) : M A := fun _ => Err e.

Definition require (b : bool) (e : Error) : M unit :=
  if b then ret tt else throw e.

Definition load : M Storage := fun σ => Ok (storage σ, σ).

Definition store (s : Storage) : M unit :=
  fun σ => Ok (tt, mkMachine s (balance σ) (log σ)).

Definition record (e : Effect) : M unit :=
  fun σ => Ok (tt, mkMachine (storage σ) (balance σ) (log σ ++ [e])).

Definition emit (e : Event) : M unit := record (Emit e).

(** Checked arithmetic: the result has to fit [0 .. max]. *)
Definition checked (max x : Z) : M Z :=
  if (0 <=? x) && (x <=? max) then ret x else throw PanicArithmetic.

(** [a\[i\]] on a storage or calldata array. *)
Definition zlookup {A} (l : list A) (i : Z) : option A :=
  if i <? 0 then None else l !! Z.to_nat i.

Definition index {A} (l : list A) (i : Z) : M A :=
  match zlookup l i with
  | Some x => ret x
  | None => throw PanicIndexOutOfBounds
  end.

Definition len {A} (l : list A) : Z := Z.of_nat (length l).

(** An external call that may revert. *)
Definition external {A} (r : option A) : M A :=
  match r with
  | Some a => ret a
  | None => throw CollaboratorReverted
  end.

(** [for (uint i = start; ...; i++) body(i)], [count] iterations. *)
Fixpoint for_range (count : nat) (i : Z) (body : Z -> M unit) : M unit :=
  match count with
  | O => ret tt
  | S c => let* _ := body i in for_range c (i + 1) body
  end.

(** Storage updates. *)
Definition set_offerCatalog (c : list offer) (s : Storage) : Storage :=
  mkStorage (_contractToOffer s) c (treasury s) (openSales s) (treasuryFee s) (nodeFee s) (_owner s).
Definition set_contractToOffer (m : gmap Z Z) (s : Storage) : Storage :=
  mkStorage m (offerCatalog s) (treasury s) (openSales s) (treasuryFee s) (nodeFee s) (_owner s).
Definition set_treasury (t : address) (s : Storage) : Storage :=
  mkStorage (_contractToOffer s) (offerCatalog s) t (openSales s) (treasuryFee s) (nodeFee s) (_owner s).
Definition set_openSales (n : Z) (s : Storage) : Storage :=
  mkStorage (_contractToOffer s) (offerCatalog s) (treasury s) n (treasuryFee s) (nodeFee s) (_owner s).
Definition set_treasuryFee (f : Z) (s : Storage) : Storage :=
  mkStorage (_contractToOffer s) (offerCatalog s) (treasury s) (openSales s) f (nodeFee s) (_owner s).
Definition set_nodeFee (f : Z) (s : Storage) : Storage :=
  mkStorage (_contractToOffer s) (offerCatalog s) (treasury s) (openSales s) (treasuryFee s) f (_owner s).

Definition set_offer (i : Z) (o : offer) (s : Storage) : Storage :=
  set_offerCatalog (<[Z.to_nat i := o]> (offerCatalog s)) s.

(** [_contractToOffer\[a\]]: an absent key reads as [0]. *)
Definition contractToOffer_slot (s : Storage) (a : address) : Z :=
  default 0 (_contractToOffer s !! a).

(** ** The contract *)

Definition empty_storage : Storage :=
  mkStorage ∅ [] address_zero 0 0 0 address_zero.

(** [initialize]: the owner is left as it is. *)
Definition initialize (_treasury : address) (_treasuryFee _nodeFee : Z) (s : Storage) : Storage :=
  set_openSales 0 (set_nodeFee _nodeFee (set_treasuryFee _treasuryFee (set_treasury _treasury s))).

Definition _validateRangeInfo (startToken endToken : Z) : M unit :=
  require (startToken <? endToken) InvalidRangeBounds.

Definition _appendOfferRange (offerIndex startToken endToken price : Z) (name : string) : M unit :=
  let* s := load in
  let* selectedOffer := index (offerCatalog s) offerIndex in
  let* width := checked uint256_max (endToken - startToken) in
  let* allowed := checked uint256_max (width + 1) in
  let selectedOffer' :=
    mkOffer (contractAddress selectedOffer) (nodeAddress selectedOffer)
            (productIndex selectedOffer)
            (tokenRangeStart selectedOffer ++ [startToken])
            (tokenRangeEnd selectedOffer ++ [endToken])
            (tokensAllowed selectedOffer ++ [allowed])
            (rangePrice selectedOffer ++ [price])
            (rangeName selectedOffer ++ [name]) in
  let* _ := store (set_offer offerIndex selectedOffer' s) in
  let* rangeIndex := checked uint256_max (len (rangeName selectedOffer') - 1) in
  let* _ := emit (AppendedRange (contractAddress selectedOffer') (productIndex selectedOffer')
                                offerIndex rangeIndex startToken endToken price name) in
  let* s := load in
  let* n := checked uint256_max (openSales s + 1) in
  store (set_openSales n s).

Section Calls.

Variable env : Env.
Variable ctx : Ctx.

(** [payable(to).transfer(amount)] *)
Definition transfer (to : address) (amount : Z) : M unit :=
  fun σ =>
    if (amount <=? balance σ) && acceptsTransfer env to amount
    then Ok (tt, mkMachine (storage σ) (balance σ - amount) (log σ ++ [Transfer to amount]))
    else Err TransferFailed.

(** The value sent with a payable call is credited on entry. *)
Definition receive_value : M unit :=
  fun σ => Ok (tt, mkMachine (storage σ) (balance σ + value ctx) (log σ)).

Definition contractToOffer (erc721Address : address) : M Z :=
  let* s := load in
  if 0 <? len (offerCatalog s) then
    let* o := index (offerCatalog s) (contractToOffer_slot s erc721Address) in
    let* _ := require (bool_decide (contractAddress o = erc721Address)) NoOfferForCollection in
    ret (contractToOffer_slot s erc721Address)
  else throw NoOfferForCollection.

Definition validateRoles (tokenAddress : address) : M bool :=
  let* isMinter := external (hasRole env tokenAddress MINTER (this env)) in
  let* _ := require isMinter NotAuthorizedAsMinter in
  let* isCreator := external (hasRole env tokenAddress CREATOR (sender ctx)) in
  let* _ := require isCreator NotAuthorizedAsCreator in
  ret true.

Definition onlyOwner : M unit :=
  let* s := load in
  require (bool_decide (_owner s = sender ctx)) NotOwner.

Definition setTreasuryAddress (_newTreasury : address) : M unit :=
  let* _ := onlyOwner in
  let* s := load in
  let* _ := store (set_treasury _newTreasury s) in
  emit (ChangedTreasury _newTreasury).

Definition setTreasuryFee (_newFee : Z) : M unit :=
  let* _ := onlyOwner in
  let* s := load in
  let* _ := store (set_treasuryFee _newFee s) in
  let* s := load in
  emit (ChangedTreasuryFee (treasury s) _newFee).

Definition setNodeFee (_newFee : Z) : M unit :=
  let* _ := onlyOwner in
  let* s := load in
  let* _ := store (set_nodeFee _newFee s) in
  emit (ChangedNodeFee _newFee).

Definition addOffer (_tokenAddress : address) (_productIndex : Z)
    (_rangeStartToken _rangeEndToken _rangePrice : list Z)
    (_rangeName : list string) (_nodeAddress : address) : M unit :=
  let* _ := validateRoles _tokenAddress in
  let* s := load in
  let* _ :=
    if negb (len (offerCatalog s) =? 0) then
      let* o := index (offerCatalog s) (contractToOffer_slot s _tokenAddress) in
      require (bool_decide (contractAddress o = address_zero)) OfferAlreadyExists
    else ret tt in
  let* _ := require ((len _rangeStartToken =? len _rangeEndToken) &&
                     (len _rangePrice =? len _rangeStartToken) &&
                     (len _rangeName =? len _rangePrice)) RangeLengthMismatch in
  let* mintableTokensLeft :=
    external (getCollection_mintableTokensLeft env _tokenAddress _productIndex) in
  let* _ := require (0 <? mintableTokensLeft) NoMintableSupply in
  let newOffer := mkOffer _tokenAddress _nodeAddress _productIndex [] [] [] [] [] in
  let* _ := store (set_offerCatalog (offerCatalog s ++ [newOffer]) s) in
  let* _ :=
    for_range (length _rangeName) 0 (fun i =>
      let* startToken := index _rangeStartToken i in
      let* endToken := index _rangeEndToken i in
      let* _ := _validateRangeInfo startToken endToken in
      let* s := load in
      let* last := checked uint256_max (len (offerCatalog s) - 1) in
      let* price := index _rangePrice i in
      let* name := index _rangeName i in
      _appendOfferRange last startToken endToken price name) in
  let* s := load in
  let* last := checked uint256_max (len (offerCatalog s) - 1) in
  let* _ := store (set_contractToOffer (<[_tokenAddress := last]> (_contractToOffer s)) s) in
  emit (AddedOffer _tokenAddress _productIndex (len _rangeName) last).

Definition updateOfferRange (offerIndex rangeIndex startToken endToken price : Z)
    (name : string) : M unit :=
  let* s := load in
  let* selectedOffer := index (offerCatalog s) offerIndex in
  let* oldEnd := index (tokenRangeEnd selectedOffer) rangeIndex in
  let* _ :=
    if endToken <=? oldEnd then
      let* oldStart := index (tokenRangeStart selectedOffer) rangeIndex in
      require (oldStart <=? startToken) RangeExpansionNotAllowed
    else throw RangeExpansionNotAllowed in
  let* _ := validateRoles (contractAddress selectedOffer) in
  let* _ := _validateRangeInfo startToken endToken in
  let* allowed := index (tokensAllowed selectedOffer) rangeIndex in
  let* oldEnd := index (tokenRangeEnd selectedOffer) rangeIndex in
  let* oldStart := index (tokenRangeStart selectedOffer) rangeIndex in
  let* oldWidth := checked uint256_max (oldEnd - oldStart) in
  let* newWidth := checked uint256_max (endToken - startToken) in
  let* delta := checked uint256_max (oldWidth - newWidth) in
  let* allowed' := checked uint256_max (allowed - delta) in
  let* _ := index (tokenRangeStart selectedOffer) rangeIndex in
  let* _ := index (rangePrice selectedOffer) rangeIndex in
  let* _ := index (rangeName selectedOffer) rangeIndex in
  let selectedOffer' :=
    mkOffer (contractAddress selectedOffer) (nodeAddress selectedOffer)
            (productIndex selectedOffer)
            (<[Z.to_nat rangeIndex := startToken]> (tokenRangeStart selectedOffer))
            (<[Z.to_nat rangeIndex := endToken]> (tokenRangeEnd selectedOffer))
            (<[Z.to_nat rangeIndex := allowed']> (tokensAllowed selectedOffer))
            (<[Z.to_nat rangeIndex := price]> (rangePrice selectedOffer))
            (<[Z.to_nat rangeIndex := name]> (rangeName selectedOffer)) in
  let* _ := store (set_offer offerIndex selectedOffer' s) in
  let* tokens := index (tokensAllowed selectedOffer') rangeIndex in
  emit (UpdatedOffer (contractAddress selectedOffer') offerIndex rangeIndex tokens price name).

Definition appendOfferRange (offerIndex startToken endToken price : Z) (name : string) : M unit :=
  let* s := load in
  let* o := index (offerCatalog s) offerIndex in
  let* _ := validateRoles (contractAddress o) in
  let* _ := _validateRangeInfo startToken endToken in
  _appendOfferRange offerIndex startToken endToken price name.

Definition appendOfferRangeBatch (offerIndex : Z) (startTokens endTokens prices : list Z)
    (names : list string) : M unit :=
  let* _ := require ((len startTokens =? len endTokens) &&
                     (len prices =? len startTokens) &&
                     (len names =? len prices)) RangeLengthMismatch in
  let* s := load in
  let* o := index (offerCatalog s) offerIndex in
  let* _ := validateRoles (contractAddress o) in
  for_range (length names) 0 (fun i =>
    let* startToken := index startTokens i in
    let* endToken := index endTokens i in
    let* _ := _validateRangeInfo startToken endToken in
    let* price := index prices i in
    let* name := index names i in
    _appendOfferRange offerIndex startToken endToken price name).

Definition buyToken (catalogIndex rangeIndex internalTokenIndex : Z) : M unit :=
  let* _ := receive_value in
  let* s := load in
  let* selectedCollection := index (offerCatalog s) catalogIndex in
  let* _ := require (negb (bool_decide (contractAddress selectedCollection = address_zero)))
                    InvalidOffer in
  let* _ := require (rangeIndex <? len (tokensAllowed selectedCollection)) InvalidRange in
  let* allowed := index (tokensAllowed selectedCollection) rangeIndex in
  let* _ := require (0 <? allowed) RangeSoldOut in
  let* startToken := index (tokenRangeStart selectedCollection) rangeIndex in
  let* _ :=
    if startToken <=? internalTokenIndex then
      let* endToken := index (tokenRangeEnd selectedCollection) rangeIndex in
      require (internalTokenIndex <=? endToken) TokenOutsideRange
    else throw TokenOutsideRange in
  let* price := index (rangePrice selectedCollection) rangeIndex in
  let* _ := require (price <=? value ctx) InsufficientFunds in
  let* hasFees :=
    external (supportsInterface_IERC2981 env (contractAddress selectedCollection)) in
  let* _ :=
    if hasFees : bool then
      let* name := index (rangeName selectedCollection) rangeIndex in
      let* '(creatorAddress, _) :=
        external (royaltyInfo env (contractAddress selectedCollection) 0 price name) in
      let* fees := checked uint16_max (treasuryFee s + nodeFee s) in
      let* rate := checked uint24_max (100000 - fees) in
      let* share := checked uint256_max (price * rate) in
      transfer creatorAddress (share / 100000)
    else ret tt in
  let* refund := checked uint256_max (value ctx - price) in
  let* _ := transfer (sender ctx) refund in
  let* treasuryShare := checked uint256_max (price * treasuryFee s) in
  let* _ := transfer (treasury s) (treasuryShare / 100000) in
  let* nodeShare := checked uint256_max (price * nodeFee s) in
  let* _ := transfer (nodeAddress selectedCollection) (nodeShare / 100000) in
  let* allowed' := checked uint256_max (allowed - 1) in
  let selectedCollection' :=
    mkOffer (contractAddress selectedCollection) (nodeAddress selectedCollection)
            (productIndex selectedCollection)
            (tokenRangeStart selectedCollection)
            (tokenRangeEnd selectedCollection)
            (<[Z.to_nat rangeIndex := allowed']> (tokensAllowed selectedCollection))
            (rangePrice selectedCollection)
            (rangeName selectedCollection) in
  let* _ := store (set_offer catalogIndex selectedCollection' s) in
  let* _ :=
    if allowed' =? 0 then
      let* s := load in
      let* n := checked uint256_max (openSales s - 1) in
      let* _ := store (set_openSales n s) in
      emit (SoldOut (contractAddress selectedCollection') catalogIndex rangeIndex)
    else ret tt in
  let* s := load in
  let* _ :=
    if mint env (contractAddress selectedCollection') (sender ctx)
            (productIndex selectedCollection') internalTokenIndex
    then record (MintCall s (contractAddress selectedCollection') (sender ctx)
                          (productIndex selectedCollection') internalTokenIndex)
    else throw CollaboratorReverted in
  emit (TokenMinted (sender ctx) (contractAddress selectedCollection') catalogIndex
                    rangeIndex internalTokenIndex).

End Calls.

(** ** The read-only entry points *)

(** [offerCatalog.length] *)
Definition getOfferCount : M Z :=
  let* s := load in
  ret (len (offerCatalog s)).

(** The offer at [_index], without its ranges; [availableRanges] is the
    length of [rangeName]. *)
Definition getOfferInfo (_index : Z) : M (address * Z * address * Z) :=
  let* s := load in
  let* selectedOffer := index (offerCatalog s) _index in
  ret (contractAddress selectedOffer,
       productIndex selectedOffer,
       nodeAddress selectedOffer,
       len (rangeName selectedOffer)).

(** One range of an offer, read from the five arrays in the order of the
    source. *)
Definition getOfferRangeInfo (offerIndex rangeIndex : Z)
    : M (address * Z * Z * Z * Z * Z * string) :=
  let* s := load in
  let* selectedOffer := index (offerCatalog s) offerIndex in
  let* tokenStart := index (tokenRangeStart selectedOffer) rangeIndex in
  let* tokenEnd := index (tokenRangeEnd selectedOffer) rangeIndex in
  let* allowed := index (tokensAllowed selectedOffer) rangeIndex in
  let* price := index (rangePrice selectedOffer) rangeIndex in
  let* name := index (rangeName selectedOffer) rangeIndex in
  ret (contractAddress selectedOffer,
       productIndex selectedOffer,
       tokenStart, tokenEnd, allowed, price, name).

(** ** Transactions and call sequences *)

(** A call is a transaction: when it reverts the machine is left as it was. *)
Definition transact (m : M unit) (σ : Machine) : Machine * option Error :=
  match m σ with
  | Ok (_, σ') => (σ', None)
  | Err e => (σ, Some e)
  end.

(** The state-mutating entry points. *)
Inductive Call :=
| CallAddOffer (_tokenAddress : address) (_productIndex : Z)
    (_rangeStartToken _rangeEndToken _rangePrice : list Z)
    (_rangeName : list string) (_nodeAddress : address)
| CallUpdateOfferRange (offerIndex rangeIndex startToken endToken price : Z) (name : string)
| CallAppendOfferRange (offerIndex startToken endToken price : Z) (name : string)
| CallAppendOfferRangeBatch (offerIndex : Z) (startTokens endTokens prices : list Z)
    (names : list string)
| CallBuyToken (catalogIndex rangeIndex internalTokenIndex : Z)
| CallSetTreasuryAddress (_newTreasury : address)
| CallSetTreasuryFee (_newFee : Z)
| CallSetNodeFee (_newFee : Z).

Definition dispatch (env : Env) (ctx : Ctx) (c : Call) : M unit :=
  match c with
  | CallAddOffer t p ss es ps ns n => addOffer env ctx t p ss es ps ns n
  | CallUpdateOfferRange o r s e p n => updateOfferRange env ctx o r s e p n
  | CallAppendOfferRange o s e p n => appendOfferRange env ctx o s e p n
  | CallAppendOfferRangeBatch o ss es ps ns => appendOfferRangeBatch env ctx o ss es ps ns
  | CallBuyToken c r t => buyToken env ctx c r t
  | CallSetTreasuryAddress t => setTreasuryAddress ctx t
  | CallSetTreasuryFee f => setTreasuryFee ctx f
  | CallSetNodeFee f => setNodeFee ctx f
  end.

(** One transaction of a history: the collaborators' answers at that time,
    the caller and the value sent, and the entry point called. *)
Record Tx := mkTx {
  tx_env : Env;
  tx_ctx : Ctx;
  tx_call : Call
}.

Definition step (σ : Machine) (t : Tx) : Machine :=
  fst (transact (dispatch (tx_env t) (tx_ctx t) (tx_call t)) σ).

Definition run (txs : list Tx) (σ : Machine) : Machine := fold_left step txs σ.

(** The machine right after deployment and [initialize]. *)
Definition deployed (owner _treasury : address) (_treasuryFee _nodeFee funds : Z) : Machine :=
  mkMachine
    (initialize _treasury _treasuryFee _nodeFee
       (mkStorage ∅ [] address_zero 0 0 0 owner))
    funds [].

Definition reachable (σ : Machine) : Prop :=
  ∃ owner _treasury _treasuryFee _nodeFee funds txs,
    σ = run txs (deployed owner _treasury _treasuryFee _nodeFee funds).

(** ** Observations on the catalog *)

(** [offerCatalog\[o\].tokensAllowed\[r\]], when the range exists. *)
Definition remainingSupply (s : Storage) (o r : Z) : option Z :=
  match zlookup (offerCatalog s) o with
  | Some off => zlookup (tokensAllowed off) r
  | None => None
  end.

(** The number of ranges with tokens left: of an offer, of a list of
    offers, of the catalog. *)
Definition open_ranges_of (o : offer) : Z :=
  len (filter (fun n => 0 < n) (tokensAllowed o)).

Definition open_sum (cat : list offer) : Z :=
  foldr (fun o acc => open_ranges_of o + acc) 0 cat.

Definition open_ranges (s : Storage) : Z := open_sum (offerCatalog s).

(** [1] for a range with tokens left, [0] for an exhausted one. *)
Definition open1 (n : Z) : Z := if decide (0 < n) then 1 else 0.

(** The amounts [buyToken] pays out of a range's price. *)
Definition creatorAmount (s : Storage) (price : Z) : Z :=
  price * (100000 - (treasuryFee s + nodeFee s)) / 100000.
Definition treasuryAmount (s : Storage) (price : Z) : Z :=
  price * treasuryFee s / 100000.
Definition nodeAmount (s : Storage) (price : Z) : Z :=
  price * nodeFee s / 100000.

(** The offer after [tokensAllowed\[rangeIndex\]] is overwritten. *)
Definition with_allowed (o : offer) (rangeIndex allowed : Z) : offer :=
  mkOffer (contractAddress o) (nodeAddress o) (productIndex o)
          (tokenRangeStart o) (tokenRangeEnd o)
          (<[Z.to_nat rangeIndex := allowed]> (tokensAllowed o))
          (rangePrice o) (rangeName o).

(** The storage [buyToken] leaves when it sells one token of range
    [rangeIndex] of offer [o], which had [allowed] tokens left. *)
Definition sold_storage (s : Storage) (catalogIndex : Z) (o : offer)
    (rangeIndex allowed : Z) : Storage :=
  let s1 := set_offer catalogIndex (with_allowed o rangeIndex (allowed - 1)) s in
  if allowed - 1 =? 0 then set_openSales (openSales s1 - 1) s1 else s1.

(** The storage arrays of an offer are pushed to together. *)
Definition wf_offer (o : offer) : Prop :=
  length (tokenRangeStart o) = length (tokensAllowed o) ∧
  length (tokenRangeEnd o) = length (tokensAllowed o) ∧
  length (rangePrice o) = length (tokensAllowed o) ∧
  length (rangeName o) = length (tokensAllowed o).

Definition wf_storage (s : Storage) : Prop := Forall wf_offer (offerCatalog s).

(** A successful purchase, read off the code of [buyToken]: the offer [o]
    and the range data it read, whether the collection reported the royalty
    interface ([hasFees]), and the payment to the creator ([payout], empty
    without the interface). *)
Record purchase (env : Env) (ctx : Ctx) (catalogIndex rangeIndex internalTokenIndex : Z)
    (σ σ' : Machine) (o : offer) (allowed startToken endToken price : Z)
    (hasFees : bool) (payout : list Effect) : Prop := mkPurchase {
  p_offer : zlookup (offerCatalog (storage σ)) catalogIndex = Some o;
  p_live : contractAddress o ≠ address_zero;
  p_allowed : zlookup (tokensAllowed o) rangeIndex = Some allowed;
  p_left : 0 < allowed;
  p_start : zlookup (tokenRangeStart o) rangeIndex = Some startToken;
  p_end : zlookup (tokenRangeEnd o) rangeIndex = Some endToken;
  p_within : startToken <= internalTokenIndex <= endToken;
  p_price : zlookup (rangePrice o) rangeIndex = Some price;
  p_paid : price <= value ctx;
  p_supports : supportsInterface_IERC2981 env (contractAddress o) = Some hasFees;
  p_payout :
    if hasFees then
      ∃ name creatorAddress amount,
        zlookup (rangeName o) rangeIndex = Some name ∧
        royaltyInfo env (contractAddress o) 0 price name = Some (creatorAddress, amount) ∧
        0 <= treasuryFee (storage σ) + nodeFee (storage σ) <= uint16_max ∧
        0 <= price * (100000 - (treasuryFee (storage σ) + nodeFee (storage σ))) <= uint256_max ∧
        payout = [Transfer creatorAddress (creatorAmount (storage σ) price)]
    else payout = [];
  p_treasury_fits : 0 <= price * treasuryFee (storage σ) <= uint256_max;
  p_node_fits : 0 <= price * nodeFee (storage σ) <= uint256_max;
  p_open : allowed - 1 = 0 -> 0 < openSales (storage σ);
  p_mint : mint env (contractAddress o) (sender ctx) (productIndex o) internalTokenIndex = true;
  p_storage : storage σ' = sold_storage (storage σ) catalogIndex o rangeIndex allowed;
  p_balance :
    balance σ' = balance σ + value ctx
                 - (if hasFees then creatorAmount (storage σ) price else 0)
                 - (value ctx - price)
                 - treasuryAmount (storage σ) price
                 - nodeAmount (storage σ) price;
  p_log :
    log σ' = log σ ++ payout
             ++ [Transfer (sender ctx) (value ctx - price);
                 Transfer (treasury (storage σ)) (treasuryAmount (storage σ) price);
                 Transfer (nodeAddress o) (nodeAmount (storage σ) price)]
             ++ (if allowed - 1 =? 0
                 then [Emit (SoldOut (contractAddress o) catalogIndex rangeIndex)]
                 else [])
             ++ [MintCall (storage σ') (contractAddress o) (sender ctx)
                          (productIndex o) internalTokenIndex;
                 Emit (TokenMinted (sender ctx) (contractAddress o) catalogIndex
                                   rangeIndex internalTokenIndex)]
}.

(** The offer after one more range is pushed by [_appendOfferRange]. *)
Definition push_range (o : offer) (startToken endToken price : Z) (name : string) : offer :=
  mkOffer (contractAddress o) (nodeAddress o) (productIndex o)
          (tokenRangeStart o ++ [startToken])
          (tokenRangeEnd o ++ [endToken])
          (tokensAllowed o ++ [endToken - startToken + 1])
          (rangePrice o ++ [price])
          (rangeName o ++ [name]).

(** The offer after several ranges are pushed, one after the other. *)
Definition push_ranges (o : offer) (starts ends prices : list Z) (names : list string) : offer :=
  mkOffer (contractAddress o) (nodeAddress o) (productIndex o)
          (tokenRangeStart o ++ starts)
          (tokenRangeEnd o ++ ends)
          (tokensAllowed o ++ zip_with (fun s e => e - s + 1) starts ends)
          (rangePrice o ++ prices)
          (rangeName o ++ names).

(** The offer after [updateOfferRange] rewrites range [rangeIndex]. *)
Definition update_range (o : offer) (rangeIndex startToken endToken allowed price : Z)
    (name : string) : offer :=
  mkOffer (contractAddress o) (nodeAddress o) (productIndex o)
          (<[Z.to_nat rangeIndex := startToken]> (tokenRangeStart o))
          (<[Z.to_nat rangeIndex := endToken]> (tokenRangeEnd o))
          (<[Z.to_nat rangeIndex := allowed]> (tokensAllowed o))
          (<[Z.to_nat rangeIndex := price]> (rangePrice o))
          (<[Z.to_nat rangeIndex := name]> (rangeName o)).

(** Every stored supply is a [uint]: it is not negative. *)
Definition supply_nonneg (s : Storage) : Prop :=
  Forall (fun o => Forall (fun n => 0 <= n) (tokensAllowed o)) (offerCatalog s).

(** The treasury, the fee rates and the owner are the same. *)
Definition same_settings (s s' : Storage) : Prop :=
  treasury s' = treasury s ∧ treasuryFee s' = treasuryFee s ∧
  nodeFee s' = nodeFee s ∧ _owner s' = _owner s.

(** The storage after the first [k] iterations of a loop that pushes the
    ranges of the four arrays to offer [oi], started on [s0]. *)
Definition pushed (s0 : Storage) (oi : Z) (o0 : offer)
    (starts ends prices : list Z) (names : list string) (k : nat) (s : Storage) : Prop :=
  offerCatalog s = <[Z.to_nat oi := push_ranges o0 (take k starts) (take k ends)
                                      (take k prices) (take k names)]> (offerCatalog s0) ∧
  openSales s = openSales s0 + Z.of_nat k ∧
  Forall2 Z.lt (take k starts) (take k ends) ∧
  _contractToOffer s = _contractToOffer s0 ∧
  same_settings s0 s.

(** Kinds of effects. *)
Definition is_mint (e : Effect) : bool :=
  match e with MintCall _ _ _ _ _ => true | _ => false end.
Definition is_transfer (e : Effect) : bool :=
  match e with Transfer _ _ => true | _ => false end.


(** The invariant of the open-sales counter. *)
Definition openSales_counts (s : Storage) : Prop := openSales s = open_ranges s.

(** How the catalog may change: every offer stays where it is with its
    collection address, and no supply of an existing range grows. *)
Definition offer_evolves (o o' : offer) : Prop :=
  contractAddress o' = contractAddress o ∧
  ∀ r n, zlookup (tokensAllowed o) r = Some n ->
         ∃ n', zlookup (tokensAllowed o') r = Some n' ∧ n' <= n.

Definition evolves (s s' : Storage) : Prop :=
  ∀ ci o, zlookup (offerCatalog s) ci = Some o ->
          ∃ o', zlookup (offerCatalog s') ci = Some o' ∧ offer_evolves o o'.

(** What a transaction can do to the storage. *)
Inductive change_kind := Unchanged | Listed | Appended | Updated | Sold.

Inductive catalog_change (s s' : Storage) : change_kind -> Prop :=
| change_none :
    offerCatalog s' = offerCatalog s -> openSales s' = openSales s ->
    catalog_change s s' Unchanged
| change_listed token node product starts ends prices names :
    length starts = length ends -> length prices = length starts ->
    length names = length prices ->
    Forall2 Z.lt starts ends ->
    offerCatalog s' = offerCatalog s
                      ++ [push_ranges (mkOffer token node product [] [] [] [] [])
                                      starts ends prices names] ->
    openSales s' = openSales s + len names ->
    catalog_change s s' Listed
| change_appended oi o starts ends prices names :
    zlookup (offerCatalog s) oi = Some o ->
    length starts = length ends -> length prices = length starts ->
    length names = length prices ->
    Forall2 Z.lt starts ends ->
    offerCatalog s' = <[Z.to_nat oi := push_ranges o starts ends prices names]> (offerCatalog s) ->
    openSales s' = openSales s + len names ->
    catalog_change s s' Appended
| change_updated oi ri o oldStart oldEnd allowed st en p nm :
    zlookup (offerCatalog s) oi = Some o ->
    zlookup (tokenRangeStart o) ri = Some oldStart ->
    zlookup (tokenRangeEnd o) ri = Some oldEnd ->
    zlookup (tokensAllowed o) ri = Some allowed ->
    is_Some (zlookup (rangePrice o) ri) -> is_Some (zlookup (rangeName o) ri) ->
    en <= oldEnd -> oldStart <= st -> st < en ->
    0 <= (oldEnd - oldStart) - (en - st) <= allowed ->
    offerCatalog s' = <[Z.to_nat oi := update_range o ri st en
                          (allowed - ((oldEnd - oldStart) - (en - st))) p nm]> (offerCatalog s) ->
    openSales s' = openSales s ->
    catalog_change s s' Updated
| change_sold ci ri o allowed :
    zlookup (offerCatalog s) ci = Some o ->
    zlookup (tokensAllowed o) ri = Some allowed ->
    0 < allowed ->
    offerCatalog s' = <[Z.to_nat ci := with_allowed o ri (allowed - 1)]> (offerCatalog s) ->
    openSales s' = (if allowed - 1 =? 0 then openSales s - 1 else openSales s) ->
    catalog_change s s' Sold.


(** ** A small market

    The marketplace lives at address 99, with treasury 50 (9%) and node fee
    1%. Collection 1 grants both roles, has tokens left and reports the
    royalty interface with receiver 7; collection 2 is the same without the
    interface. Creator 5 lists tokens 1 to 3 of collection 1 at price 15 with
    node 60; buyer 8 buys. *)
Module Scenario.

Definition env : Env :=
  mkEnv 99
    (fun _ _ _ => Some true)
    (fun _ _ => Some 10)
    (fun collection => Some (bool_decide (collection = 1)))
    (fun _ _ salePrice _ => Some (7, salePrice))
    (fun _ _ => true)
    (fun _ _ _ _ => true).

Definition start : Machine := deployed 0 50 9000 1000 0.

Definition creator : Ctx := mkCtx 5 0.
Definition buyer (paid : Z) : Ctx := mkCtx 8 paid.

Definition listing : Tx :=
  mkTx env creator (CallAddOffer 1 0 [1] [3] [15] ["a"] 60).

Definition buying (token paid : Z) : Tx :=
  mkTx env (buyer paid) (CallBuyToken 0 0 token).

Definition shrinking (startToken endToken : Z) : Tx :=
  mkTx env creator (CallUpdateOfferRange 0 0 startToken endToken 15 "a").

Definition listed : Machine := run [listing] start.

Definition listed_offer : offer := mkOffer 1 60 0 [1] [3] [3] [15] ["a"].

Definition sold_one : Machine := run [listing; buying 1 15] start.

Definition sold_two : Machine := run [listing; buying 1 15; buying 2 15] start.

Definition drained : Machine :=
  run [listing; buying 1 15; buying 2 15; buying 3 15] start.

Definition drained_offer : offer := mkOffer 1 60 0 [1] [3] [0] [15] ["a"].


(** The same market when collection 2 was listed instead. *)
Definition listing_plain : Tx :=
  mkTx env creator (CallAddOffer 2 0 [1] [3] [15] ["a"] 60).

Definition listed_plain : Machine := run [listing_plain] start.

Definition sold_plain : Machine := run [listing_plain; buying 1 15] start.

End Scenario.

(** ** Observations on the views, the reverse index and the log *)


(** The ranges of an offer: bounds in order, and no more tokens left than
    the bounds hold. *)
Definition ranges_bounded (o : offer) : Prop :=
  ∀ r st en a,
    zlookup (tokenRangeStart o) r = Some st ->
    zlookup (tokenRangeEnd o) r = Some en ->
    zlookup (tokensAllowed o) r = Some a ->
    st < en ∧ a <= en - st + 1.

Definition catalog_bounded (s : Storage) : Prop := Forall ranges_bounded (offerCatalog s).

(** What no transaction takes from an offer: its collection, node and
    product, its ranges, and the tokens outside a range's bounds stay
    outside. *)
Definition offer_kept (o o' : offer) : Prop :=
  contractAddress o' = contractAddress o ∧
  nodeAddress o' = nodeAddress o ∧
  productIndex o' = productIndex o ∧
  (length (rangeName o) <= length (rangeName o'))%nat ∧
  ∀ r st en,
    zlookup (tokenRangeStart o) r = Some st ->
    zlookup (tokenRangeEnd o) r = Some en ->
    ∃ st' en', zlookup (tokenRangeStart o') r = Some st' ∧
               zlookup (tokenRangeEnd o') r = Some en' ∧
               st <= st' ∧ en' <= en.

Definition catalog_kept (s s' : Storage) : Prop :=
  (length (offerCatalog s) <= length (offerCatalog s'))%nat ∧
  ∀ ci o, zlookup (offerCatalog s) ci = Some o ->
          ∃ o', zlookup (offerCatalog s') ci = Some o' ∧ offer_kept o o'.

(** The invariants of the reverse index, on the list of the offers'
    collections. *)
Definition index_inv (s : Storage) : Prop :=
  let addrs := contractAddress <$> offerCatalog s in
  (∀ token i, _contractToOffer s !! token = Some i -> zlookup addrs i = Some token) ∧
  (∀ i token, zlookup addrs i = Some token -> is_Some (_contractToOffer s !! token)) ∧
  (∀ i j token, zlookup addrs i = Some token -> zlookup addrs j = Some token ->
                token ≠ address_zero -> i = j) ∧
  (∀ token, zlookup addrs 0 = Some token -> token ≠ address_zero -> length addrs = 1%nat).

(** The ranges an offer [o'] shows as [o] did, range [ri] apart. *)
Definition ranges_kept (ri : Z) (o o' : offer) : Prop :=
  contractAddress o' = contractAddress o ∧ productIndex o' = productIndex o ∧
  ∀ r, r ≠ ri ->
    (∀ x, zlookup (tokenRangeStart o) r = Some x -> zlookup (tokenRangeStart o') r = Some x) ∧
    (∀ x, zlookup (tokenRangeEnd o) r = Some x -> zlookup (tokenRangeEnd o') r = Some x) ∧
    (∀ x, zlookup (tokensAllowed o) r = Some x -> zlookup (tokensAllowed o') r = Some x) ∧
    (∀ x, zlookup (rangePrice o) r = Some x -> zlookup (rangePrice o') r = Some x) ∧
    (∀ x, zlookup (rangeName o) r = Some x -> zlookup (rangeName o') r = Some x).

(** The collection whose roles a listing call asks for. *)
Definition gated_collection (s : Storage) (c : Call) : option address :=
  match c with
  | CallAddOffer token _ _ _ _ _ _ => Some token
  | CallUpdateOfferRange oi _ _ _ _ _
  | CallAppendOfferRange oi _ _ _ _
  | CallAppendOfferRangeBatch oi _ _ _ _ =>
      contractAddress <$> zlookup (offerCatalog s) oi
  | _ => None
  end.

Definition is_listing_call (c : Call) : bool :=
  match c with
  | CallAddOffer _ _ _ _ _ _ _ | CallUpdateOfferRange _ _ _ _ _ _
  | CallAppendOfferRange _ _ _ _ _ | CallAppendOfferRangeBatch _ _ _ _ _ => true
  | _ => false
  end.




(** One [AppendedRange] event for each range of the four arrays, numbered
    from [rangeIndex]. *)
Fixpoint range_events (collection : address) (product offerIndex rangeIndex : Z)
    (starts ends prices : list Z) (names : list string) : list Effect :=
  match starts, ends, prices, names with
  | st :: starts, en :: ends, p :: prices, nm :: names =>
      Emit (AppendedRange collection product offerIndex rangeIndex st en p nm)
      :: range_events collection product offerIndex (rangeIndex + 1) starts ends prices names
  | _, _, _, _ => []
  end.

(** More of the market of [Scenario]: the creator appends tokens 5 to 9 at
    price 20 to the offer, or shrinks its range to tokens 2 to 3. With the
    collaborators [strict] no collection has made the marketplace a minter;
    [owner] is the owner of the marketplace, sending no value. *)
Module Trades.

Definition strict : Env :=
  mkEnv 99
    (fun _ role _ => Some (match role with MINTER => false | CREATOR => true end))
    (fun _ _ => Some 10)
    (fun _ => Some false)
    (fun _ _ _ _ => None)
    (fun _ _ => true)
    (fun _ _ _ _ => true).

Definition owner : Ctx := mkCtx 0 0.

Definition appending : Tx :=
  mkTx Scenario.env Scenario.creator (CallAppendOfferRange 0 5 9 20 "b").

Definition appended : Machine := run [appending] Scenario.listed.

Definition shrunk : Machine := run [Scenario.shrinking 2 3] Scenario.listed.

End Trades.

(** ** Reasoning about the monad *)

Section MonadLemmas.

Context {A B : Type}.
Implicit Types (σ : Machine) (k : A -> M B).

Lemma bind_assoc {C} (m : M C) (f : C -> M A) k σ :
  bind (bind m f) k σ = bind m (fun c => bind (f c) k) σ.
Proof. unfold bind. destruct (m σ) as [[c σ1]|e]; reflexivity. Qed.

Lemma bind_ret (a : A) k σ : bind (ret a) k σ = k a σ.
Proof. reflexivity. Qed.

Lemma bind_throw e k σ : bind (throw e) k σ = Err e.
Proof. reflexivity. Qed.

Lemma bind_ok (m : M A) k σ r :
  bind m k σ = Ok r -> ∃ a σ1, m σ = Ok (a, σ1) ∧ k a σ1 = Ok r.
Proof.
  unfold bind. destruct (m σ) as [[a σ1]|e]; [eauto | discriminate].
Qed.

Lemma bind_err (m : M A) k σ e :
  m σ = Err e -> bind m k σ = Err e.
Proof. unfold bind. intros ->. reflexivity. Qed.

Lemma bind_step (m : M A) k σ a σ1 :
  m σ = Ok (a, σ1) -> bind m k σ = k a σ1.
Proof. unfold bind. intros ->. reflexivity. Qed.

End MonadLemmas.

Section PrimitiveLemmas.

Context {B : Type}.
Implicit Types (σ : Machine).

Lemma bind_load (k : Storage -> M B) σ : bind load k σ = k (storage σ) σ.
Proof. reflexivity. Qed.

Lemma bind_store s (k : unit -> M B) σ :
  bind (store s) k σ = k tt (mkMachine s (balance σ) (log σ)).
Proof. reflexivity. Qed.

Lemma bind_record e (k : unit -> M B) σ :
  bind (record e) k σ = k tt (mkMachine (storage σ) (balance σ) (log σ ++ [e])).
Proof. reflexivity. Qed.

Lemma bind_emit e (k : unit -> M B) σ :
  bind (emit e) k σ = k tt (mkMachine (storage σ) (balance σ) (log σ ++ [Emit e])).
Proof. reflexivity. Qed.

Lemma bind_require_true b e (k : unit -> M B) σ :
  b = true -> bind (require b e) k σ = k tt σ.
Proof. intros ->. reflexivity. Qed.

Lemma bind_require_false b e (k : unit -> M B) σ :
  b = false -> bind (require b e) k σ = Err e.
Proof. intros ->. reflexivity. Qed.

Lemma bind_require_inv b e (k : unit -> M B) σ r :
  bind (require b e) k σ = Ok r -> b = true ∧ k tt σ = Ok r.
Proof. destruct b; [auto | discriminate]. Qed.

Lemma bind_checked_in max x (k : Z -> M B) σ :
  0 <= x <= max -> bind (checked max x) k σ = k x σ.
Proof.
  intros [H0 H1]. unfold checked.
  apply Z.leb_le in H0, H1. rewrite H0, H1. reflexivity.
Qed.

Lemma bind_checked_out max x (k : Z -> M B) σ :
  ¬ (0 <= x <= max) -> bind (checked max x) k σ = Err PanicArithmetic.
Proof.
  intros H. unfold checked.
  destruct (0 <=? x) eqn:H0; [destruct (x <=? max) eqn:H1 |]; try reflexivity.
  apply Z.leb_le in H0, H1. tauto.
Qed.

Lemma bind_checked_inv max x (k : Z -> M B) σ r :
  bind (checked max x) k σ = Ok r -> 0 <= x <= max ∧ k x σ = Ok r.
Proof.
  unfold checked.
  destruct (0 <=? x) eqn:H0; [destruct (x <=? max) eqn:H1 |]; try discriminate.
  apply Z.leb_le in H0, H1. auto.
Qed.

Lemma bind_index_some {A} (l : list A) i x (k : A -> M B) σ :
  zlookup l i = Some x -> bind (index l i) k σ = k x σ.
Proof. unfold index. intros ->. reflexivity. Qed.

Lemma bind_index_none {A} (l : list A) i (k : A -> M B) σ :
  zlookup l i = None -> bind (index l i) k σ = Err PanicIndexOutOfBounds.
Proof. unfold index. intros ->. reflexivity. Qed.

Lemma bind_index_inv {A} (l : list A) i (k : A -> M B) σ r :
  bind (index l i) k σ = Ok r -> ∃ x, zlookup l i = Some x ∧ k x σ = Ok r.
Proof. unfold index. destruct (zlookup l i); [eauto | discriminate]. Qed.

Lemma bind_external_some {A} (o : option A) a (k : A -> M B) σ :
  o = Some a -> bind (external o) k σ = k a σ.
Proof. intros ->. reflexivity. Qed.

Lemma bind_external_inv {A} (o : option A) (k : A -> M B) σ r :
  bind (external o) k σ = Ok r -> ∃ a, o = Some a ∧ k a σ = Ok r.
Proof. destruct o; [eauto | discriminate]. Qed.


Lemma bind_transfer_inv env to amount (k : unit -> M B) σ r :
  bind (transfer env to amount) k σ = Ok r ->
  amount <= balance σ ∧ acceptsTransfer env to amount = true ∧
  k tt (mkMachine (storage σ) (balance σ - amount) (log σ ++ [Transfer to amount])) = Ok r.
Proof.
  unfold bind, transfer.
  destruct (amount <=? balance σ) eqn:H1; [|discriminate].
  destruct (acceptsTransfer env to amount) eqn:H2; [|discriminate].
  apply Z.leb_le in H1. auto.
Qed.

Lemma bind_receive_value ctx (k : unit -> M B) σ :
  bind (receive_value ctx) k σ
  = k tt (mkMachine (storage σ) (balance σ + value ctx) (log σ)).
Proof. reflexivity. Qed.

End PrimitiveLemmas.

(** A statement in tail position is a bind with [ret]. *)
Lemma tail_bind {A} (m : M A) σ : m σ = bind m ret σ.
Proof. unfold bind, ret. destruct (m σ) as [[a σ1]|e]; reflexivity. Qed.

(** Symbolic execution of a run that returned, [H : m σ = Ok r], one
    statement at a time: each check that passed becomes a hypothesis. *)
Ltac exec_ok H :=
  lazymatch type of H with
  | bind (bind _ _) _ _ = Ok _ => rewrite bind_assoc in H
  | bind (ret _) _ _ = Ok _ => rewrite bind_ret in H
  | bind (throw _) _ _ = Ok _ => discriminate H
  | bind load _ _ = Ok _ => rewrite bind_load in H
  | bind (store _) _ _ = Ok _ => rewrite bind_store in H
  | bind (record _) _ _ = Ok _ => rewrite bind_record in H
  | bind (emit _) _ _ = Ok _ => rewrite bind_emit in H
  | bind (receive_value _) _ _ = Ok _ => rewrite bind_receive_value in H
  | bind (require _ _) _ _ = Ok _ =>
      let Hc := fresh "Hreq" in
      apply bind_require_inv in H; destruct H as [Hc H]
  | bind (checked _ _) _ _ = Ok _ =>
      let Hc := fresh "Hchk" in
      apply bind_checked_inv in H; destruct H as [Hc H]
  | bind (index _ _) _ _ = Ok _ =>
      let x := fresh "x" in let Hc := fresh "Hidx" in
      apply bind_index_inv in H; destruct H as (x & Hc & H)
  | bind (external _) _ _ = Ok _ =>
      let x := fresh "x" in let Hc := fresh "Hext" in
      apply bind_external_inv in H; destruct H as (x & Hc & H)
  | bind (transfer _ _ _) _ _ = Ok _ =>
      let Hb := fresh "Hbal" in let Ha := fresh "Hacc" in
      apply bind_transfer_inv in H; destruct H as (Hb & Ha & H)
  | bind (if ?b then _ else _) _ _ = Ok _ =>
      let Hc := fresh "Hif" in destruct b eqn:Hc
  | bind (match ?p with (_, _) => _ end) _ _ = Ok _ => destruct p
  | (match ?p with (_, _) => _ end) _ = Ok _ => destruct p
  | ret _ _ = Ok _ => cbv [ret] in H
  | throw _ _ = Ok _ => discriminate H
  | emit _ _ = Ok _ => cbv [emit record] in H
  | record _ _ = Ok _ => cbv [record] in H
  | store _ _ = Ok _ => cbv [store] in H
  | require _ _ _ = Ok _ => rewrite tail_bind in H
  | (if ?b then _ else _) _ = Ok _ =>
      let Hc := fresh "Hif" in destruct b eqn:Hc
  end; cbv beta in H; cbn [storage balance log] in *.

(** Boolean tests of the code as propositions. *)
Ltac bool_to_prop :=
  repeat match goal with
  | H : (_ <=? _) = true |- _ => apply Z.leb_le in H
  | H : (_ <=? _) = false |- _ => apply Z.leb_gt in H
  | H : (_ <? _) = true |- _ => apply Z.ltb_lt in H
  | H : (_ <? _) = false |- _ => apply Z.ltb_ge in H
  | H : (_ =? _) = true |- _ => apply Z.eqb_eq in H
  | H : (_ =? _) = false |- _ => apply Z.eqb_neq in H
  | H : negb _ = true |- _ => apply negb_true_iff in H
  | H : negb _ = false |- _ => apply negb_false_iff in H
  | H : (_ && _) = true |- _ => apply andb_true_iff in H; destruct H
  | H : bool_decide _ = false |- _ => apply bool_decide_eq_false in H
  | H : bool_decide _ = true |- _ => apply bool_decide_eq_true in H
  end.

(** Names for the facts of a [purchase]. *)
Ltac purchase_fields P :=
  destruct P as [p_offer0 p_live0 p_allowed0 p_left0 p_start0 p_end0 p_within0 p_price0
                 p_paid0 p_supports0 p_payout0 p_tfits0 p_nfits0 p_open0 p_mint0
                 p_storage0 p_balance0 p_log0].

(** ** Array reads and writes *)

Section Arrays.

Context {A : Type}.
Implicit Types (l : list A) (i j : Z).

Lemma zlookup_some l i x :
  zlookup l i = Some x <-> 0 <= i ∧ l !! Z.to_nat i = Some x.
Proof.
  unfold zlookup. destruct (Z.ltb_spec i 0); split.
  - discriminate.
  - intros [? _]. lia.
  - auto.
  - tauto.
Qed.

Lemma zlookup_bounds l i x : zlookup l i = Some x -> 0 <= i < len l.
Proof.
  intros [H0 H]%zlookup_some. apply lookup_lt_Some in H. unfold len. lia.
Qed.

Lemma zlookup_in_bounds l i : 0 <= i < len l -> ∃ x, zlookup l i = Some x.
Proof.
  unfold len. intros H.
  destruct (lookup_lt_is_Some_2 l (Z.to_nat i)) as [x Hx]; [lia|].
  exists x. apply zlookup_some. split; [lia | done].
Qed.

Lemma zlookup_none l i : zlookup l i = None <-> i < 0 ∨ len l <= i.
Proof.
  unfold zlookup, len. destruct (Z.ltb_spec i 0); split; auto; try lia.
  - intros H0%lookup_ge_None. lia.
  - intros [?|?]; [lia|]. apply lookup_ge_None. lia.
Qed.

Lemma zlookup_app_l l l' i x : zlookup l i = Some x -> zlookup (l ++ l') i = Some x.
Proof.
  rewrite !zlookup_some. intros [? H]. split; [done|].
  rewrite lookup_app_l; [done|]. by apply lookup_lt_Some in H.
Qed.

Lemma zlookup_app_len l x : zlookup (l ++ [x]) (len l) = Some x.
Proof.
  apply zlookup_some. unfold len. split; [lia|].
  rewrite Nat2Z.id. apply list_lookup_middle. done.
Qed.

Lemma zlookup_insert_eq l i x y :
  zlookup l i = Some x -> zlookup (<[Z.to_nat i := y]> l) i = Some y.
Proof.
  rewrite !zlookup_some. intros [? H]. split; [done|].
  apply list_lookup_insert_eq. by apply lookup_lt_Some in H.
Qed.

Lemma zlookup_insert_ne l i j y :
  0 <= i -> i ≠ j -> zlookup (<[Z.to_nat i := y]> l) j = zlookup l j.
Proof.
  intros Hi Hne. unfold zlookup. destruct (Z.ltb_spec j 0); [done|].
  apply list_lookup_insert_ne. lia.
Qed.

Lemma len_app l l' : len (l ++ l') = len l + len l'.
Proof. unfold len. rewrite length_app. lia. Qed.

Lemma len_insert l n y : len (<[n := y]> l) = len l.
Proof. unfold len. by rewrite length_insert. Qed.

End Arrays.

Lemma zlookup_insert_id {A} (l : list A) i x :
  zlookup l i = Some x -> <[Z.to_nat i := x]> l = l.
Proof. intros [_ H]%zlookup_some. by apply list_insert_id. Qed.


Lemma Forall_zlookup {A} (P : A -> Prop) (l : list A) i x :
  Forall P l -> zlookup l i = Some x -> P x.
Proof.
  intros H [_ Hx]%zlookup_some. by eapply Forall_lookup_1.
Qed.

Lemma len_eq {A B} (l : list A) (k : list B) : (len l =? len k) = true -> length l = length k.
Proof. unfold len. intros H%Z.eqb_eq. lia. Qed.

Lemma len_inj {A B} (l : list A) (k : list B) : len l = len k -> length l = length k.
Proof. unfold len. lia. Qed.

Lemma zip_widths_pos starts ends :
  Forall2 Z.lt starts ends ->
  Forall (fun n => 0 < n) (zip_with (fun s e => e - s + 1) starts ends).
Proof.
  induction 1; cbn; constructor; [lia|done].
Qed.

(** ** Transactions *)

Lemma transact_err m σ e : m σ = Err e -> transact m σ = (σ, Some e).
Proof. unfold transact. intros ->. reflexivity. Qed.

Lemma transact_ok m σ σ' : m σ = Ok (tt, σ') -> transact m σ = (σ', None).
Proof. unfold transact. intros ->. reflexivity. Qed.

(** ** What a successful call did

    One lemma per entry point: from a run that returned, the checks that
    passed and the machine it left. *)

Lemma appendOfferRange_internal_ok oi st en p nm σ σ' :
  _appendOfferRange oi st en p nm σ = Ok (tt, σ') ->
  ∃ o, zlookup (offerCatalog (storage σ)) oi = Some o ∧
       0 <= en - st ∧ en - st + 1 <= uint256_max ∧
       0 <= openSales (storage σ) + 1 <= uint256_max ∧
       storage σ' = set_openSales (openSales (storage σ) + 1)
                      (set_offer oi (push_range o st en p nm) (storage σ)) ∧
       balance σ' = balance σ ∧
       log σ' = log σ ++ [Emit (AppendedRange (contractAddress o) (productIndex o) oi
                                              (len (rangeName o)) st en p nm)].
Proof.
  intros H. unfold _appendOfferRange in H.
  repeat exec_ok H. injection H as <-.
  cbn [rangeName contractAddress productIndex openSales set_offer set_offerCatalog] in *.
  eexists. split; [eassumption|].
  rewrite len_app. change (len [nm]) with 1.
  replace (len (rangeName x) + 1 - 1) with (len (rangeName x)) by lia.
  repeat split; try lia; try reflexivity.
Qed.

Lemma validateRoles_ok env ctx a σ r :
  validateRoles env ctx a σ = Ok r ->
  hasRole env a MINTER (this env) = Some true ∧
  hasRole env a CREATOR (sender ctx) = Some true ∧ r = (true, σ).
Proof.
  intros H. unfold validateRoles in H. rewrite tail_bind in H.
  repeat exec_ok H. subst. injection H as <-. auto.
Qed.

Lemma updateOfferRange_ok env ctx oi ri st en p nm σ σ' :
  updateOfferRange env ctx oi ri st en p nm σ = Ok (tt, σ') ->
  ∃ o oldStart oldEnd allowed,
    zlookup (offerCatalog (storage σ)) oi = Some o ∧
    zlookup (tokenRangeStart o) ri = Some oldStart ∧
    zlookup (tokenRangeEnd o) ri = Some oldEnd ∧
    zlookup (tokensAllowed o) ri = Some allowed ∧
    en <= oldEnd ∧ oldStart <= st ∧ st < en ∧
    hasRole env (contractAddress o) MINTER (this env) = Some true ∧
    hasRole env (contractAddress o) CREATOR (sender ctx) = Some true ∧
    0 <= (oldEnd - oldStart) - (en - st) <= allowed ∧
    is_Some (zlookup (rangePrice o) ri) ∧ is_Some (zlookup (rangeName o) ri) ∧
    storage σ' = set_offer oi (update_range o ri st en
                                 (allowed - ((oldEnd - oldStart) - (en - st))) p nm)
                           (storage σ) ∧
    balance σ' = balance σ ∧
    log σ' = log σ ++ [Emit (UpdatedOffer (contractAddress o) oi ri
                               (allowed - ((oldEnd - oldStart) - (en - st))) p nm)].
Proof.
  intros H. unfold updateOfferRange, validateRoles, _validateRangeInfo in H.
  repeat exec_ok H. injection H as <-.
  bool_to_prop. subst.
  cbn [tokensAllowed contractAddress] in *.
  repeat match goal with
  | H1 : zlookup ?l ?i = Some ?a, H2 : zlookup ?l ?i = Some ?b |- _ =>
      rewrite H1 in H2; injection H2 as ->
  end.
  match goal with
  | H1 : zlookup (tokensAllowed _) ri = Some ?a,
    H2 : zlookup (<[_ := _]> _) ri = Some _ |- _ =>
      rewrite (zlookup_insert_eq _ _ _ _ H1) in H2; injection H2 as <-
  end.
  eexists _, _, _, _.
  repeat match goal with |- _ ∧ _ => split end;
    try eassumption; try lia; try reflexivity; eauto.
Qed.

Lemma appendOfferRange_ok env ctx oi st en p nm σ σ' :
  appendOfferRange env ctx oi st en p nm σ = Ok (tt, σ') ->
  ∃ o, zlookup (offerCatalog (storage σ)) oi = Some o ∧
       hasRole env (contractAddress o) MINTER (this env) = Some true ∧
       hasRole env (contractAddress o) CREATOR (sender ctx) = Some true ∧
       st < en ∧ en - st + 1 <= uint256_max ∧
       0 <= openSales (storage σ) + 1 <= uint256_max ∧
       storage σ' = set_openSales (openSales (storage σ) + 1)
                      (set_offer oi (push_range o st en p nm) (storage σ)) ∧
       balance σ' = balance σ ∧
       log σ' = log σ ++ [Emit (AppendedRange (contractAddress o) (productIndex o) oi
                                              (len (rangeName o)) st en p nm)].
Proof.
  intros H. unfold appendOfferRange, validateRoles, _validateRangeInfo in H.
  repeat exec_ok H. subst.
  apply appendOfferRange_internal_ok in H.
  destruct H as (o & Ho & ? & ? & ? & ? & ? & ?).
  bool_to_prop.
  rewrite Ho in Hidx. injection Hidx as <-.
  exists o. repeat split; try assumption; lia.
Qed.

(** The invariant rule of a loop that ran to its end. *)
Lemma for_range_inv (I : Z -> Machine -> Prop) body count i σ σ' :
  (∀ j τ τ', i <= j < i + Z.of_nat count -> I j τ -> body j τ = Ok (tt, τ') -> I (j + 1) τ') ->
  I i σ -> for_range count i body σ = Ok (tt, σ') -> I (i + Z.of_nat count) σ'.
Proof.
  revert i σ. induction count as [|c IH]; intros i σ Hstep Hi H.
  - cbn in H. injection H as <-. by rewrite Z.add_0_r.
  - cbn [for_range] in H. apply bind_ok in H. destruct H as ([] & σ1 & Hb & H).
    replace (i + Z.of_nat (S c)) with ((i + 1) + Z.of_nat c) by lia.
    apply IH with (σ := σ1); [| |done].
    + intros j τ τ' Hj. apply Hstep. lia.
    + apply (Hstep i σ σ1); [lia|done..].
Qed.

Lemma push_ranges_nil o : push_ranges o [] [] [] [] = o.
Proof. destruct o. unfold push_ranges. cbn. by rewrite !app_nil_r. Qed.

Lemma pushed_start s0 oi o0 starts ends prices names :
  zlookup (offerCatalog s0) oi = Some o0 ->
  pushed s0 oi o0 starts ends prices names 0 s0.
Proof.
  intros H. unfold pushed. rewrite !take_0, push_ranges_nil.
  rewrite (zlookup_insert_id _ _ _ H), Z.add_0_r.
  repeat split. constructor.
Qed.

Lemma pushed_step s0 oi o0 starts ends prices names k st en p nm τ τ' :
  zlookup (offerCatalog s0) oi = Some o0 ->
  length starts = length ends ->
  pushed s0 oi o0 starts ends prices names k (storage τ) ->
  starts !! k = Some st -> ends !! k = Some en ->
  prices !! k = Some p -> names !! k = Some nm ->
  st < en ->
  _appendOfferRange oi st en p nm τ = Ok (tt, τ') ->
  pushed s0 oi o0 starts ends prices names (S k) (storage τ').
Proof.
  intros H0 Hlen (Hcat & Hopen & Hlt & Hmap & Hset) Hs He Hp Hn Hse H.
  apply appendOfferRange_internal_ok in H.
  destruct H as (o & Ho & _ & _ & _ & Hst & _ & _).
  rewrite Hcat in Ho. rewrite (zlookup_insert_eq _ _ _ _ H0) in Ho.
  injection Ho as <-.
  unfold pushed. rewrite Hst.
  cbn [offerCatalog openSales _contractToOffer set_openSales set_offer set_offerCatalog].
  rewrite Hcat, list_insert_insert_eq, Hopen.
  rewrite (take_S_r _ _ _ Hs), (take_S_r _ _ _ He), (take_S_r _ _ _ Hp), (take_S_r _ _ _ Hn).
  repeat split; try apply Hset; try done; try lia.
  - f_equal. unfold push_range, push_ranges. cbn.
    rewrite zip_with_app by (rewrite !length_take; lia).
    by rewrite <- !app_assoc.
  - apply Forall2_app; [done|]. by constructor.
Qed.

Lemma pushed_all s0 oi o0 starts ends prices names s :
  length starts = length ends -> length prices = length starts ->
  length names = length prices ->
  pushed s0 oi o0 starts ends prices names (length names) s ->
  offerCatalog s = <[Z.to_nat oi := push_ranges o0 starts ends prices names]> (offerCatalog s0) ∧
  openSales s = openSales s0 + len names ∧
  Forall2 Z.lt starts ends ∧
  _contractToOffer s = _contractToOffer s0 ∧
  same_settings s0 s.
Proof.
  intros H1 H2 H3 H. unfold pushed in H.
  rewrite !firstn_all2 in H by lia. exact H.
Qed.

Lemma pushed_lookup s0 oi o0 starts ends prices names k s :
  zlookup (offerCatalog s0) oi = Some o0 ->
  pushed s0 oi o0 starts ends prices names k s ->
  zlookup (offerCatalog s) oi
  = Some (push_ranges o0 (take k starts) (take k ends) (take k prices) (take k names)).
Proof. intros H0 (Hc & _). rewrite Hc. by apply (zlookup_insert_eq _ _ o0). Qed.

(** A loop whose body validates the pair [i] and pushes it to offer [oi]
    has pushed every pair when it ends. *)
Lemma push_loop s0 oi o0 starts ends prices names body σ σ' :
  storage σ = s0 ->
  zlookup (offerCatalog s0) oi = Some o0 ->
  length starts = length ends ->
  (∀ j τ τ', 0 <= j ->
     pushed s0 oi o0 starts ends prices names (Z.to_nat j) (storage τ) ->
     body j τ = Ok (tt, τ') ->
     ∃ st en p nm,
       starts !! Z.to_nat j = Some st ∧ ends !! Z.to_nat j = Some en ∧
       prices !! Z.to_nat j = Some p ∧ names !! Z.to_nat j = Some nm ∧
       st < en ∧ _appendOfferRange oi st en p nm τ = Ok (tt, τ')) ->
  for_range (length names) 0 body σ = Ok (tt, σ') ->
  pushed s0 oi o0 starts ends prices names (length names) (storage σ').
Proof.
  intros Hs H0 Hlen Hbody H.
  replace (length names) with (Z.to_nat (0 + Z.of_nat (length names))) at 1 by lia.
  eapply (for_range_inv
            (fun j τ => 0 <= j ∧ pushed s0 oi o0 starts ends prices names
                                        (Z.to_nat j) (storage τ))) in H.
  - apply H.
  - intros j τ τ' Hj [_ HI] Hb. split; [lia|].
    destruct (Hbody j τ τ') as (st & en & p & nm & ? & ? & ? & ? & ? & Happ); [lia|done..|].
    replace (Z.to_nat (j + 1)) with (S (Z.to_nat j)) by lia.
    by eapply pushed_step.
  - split; [lia|]. rewrite Hs. by apply pushed_start.
Qed.

Lemma appendOfferRangeBatch_ok env ctx oi starts ends prices names σ σ' :
  appendOfferRangeBatch env ctx oi starts ends prices names σ = Ok (tt, σ') ->
  ∃ o, zlookup (offerCatalog (storage σ)) oi = Some o ∧
       hasRole env (contractAddress o) MINTER (this env) = Some true ∧
       hasRole env (contractAddress o) CREATOR (sender ctx) = Some true ∧
       length starts = length ends ∧ length prices = length starts ∧
       length names = length prices ∧
       Forall2 Z.lt starts ends ∧
       offerCatalog (storage σ')
       = <[Z.to_nat oi := push_ranges o starts ends prices names]> (offerCatalog (storage σ)) ∧
       openSales (storage σ') = openSales (storage σ) + len names ∧
       _contractToOffer (storage σ') = _contractToOffer (storage σ) ∧
       same_settings (storage σ) (storage σ').
Proof.
  intros H. unfold appendOfferRangeBatch, validateRoles in H.
  repeat exec_ok H. subst.
  apply andb_true_iff in Hreq as [Hreq H3]. apply andb_true_iff in Hreq as [H1 H2].
  apply len_eq in H1, H2, H3.
  exists x. repeat (split; [done|]).
  eapply (push_loop (storage σ) oi x starts ends prices names) in H;
    [|reflexivity|eassumption|done|].
  - destruct (pushed_all _ _ _ _ _ _ _ _ H1 H2 H3 H) as (? & ? & ? & ? & ?). done.
  - clear H. intros j τ τ' Hj _ Hb. unfold _validateRangeInfo in Hb.
    repeat exec_ok Hb. bool_to_prop.
    repeat match goal with
    | H : zlookup _ _ = Some _ |- _ => apply zlookup_some in H; destruct H as [_ H]
    end.
    eexists _, _, _, _. repeat split; eassumption.
Qed.

(** The loop of [addOffer] and what follows it, from the storage in which
    the new offer has just been appended to the catalog [cat]. *)
Lemma addOffer_ranges_ok token product starts ends prices names node cat σ0 σ' :
  offerCatalog (storage σ0) = cat ++ [mkOffer token node product [] [] [] [] []] ->
  length starts = length ends -> length prices = length starts ->
  length names = length prices ->
  (let* _ :=
     for_range (length names) 0 (fun i =>
       let* startToken := index starts i in
       let* endToken := index ends i in
       let* _ := _validateRangeInfo startToken endToken in
       let* s := load in
       let* last := checked uint256_max (len (offerCatalog s) - 1) in
       let* price := index prices i in
       let* name := index names i in
       _appendOfferRange last startToken endToken price name) in
   let* s := load in
   let* last := checked uint256_max (len (offerCatalog s) - 1) in
   let* _ := store (set_contractToOffer (<[token := last]> (_contractToOffer s)) s) in
   emit (AddedOffer token product (len names) last)) σ0 = Ok (tt, σ') ->
  Forall2 Z.lt starts ends ∧
  offerCatalog (storage σ')
  = cat ++ [push_ranges (mkOffer token node product [] [] [] [] []) starts ends prices names] ∧
  openSales (storage σ') = openSales (storage σ0) + len names ∧
  _contractToOffer (storage σ') = <[token := len cat]> (_contractToOffer (storage σ0)) ∧
  same_settings (storage σ0) (storage σ').
Proof.
  intros Hcat H1 H2 H3 H.
  apply bind_ok in H. destruct H as ([] & σ1 & Hloop & H).
  assert (Hnew : zlookup (offerCatalog (storage σ0)) (len cat)
                 = Some (mkOffer token node product [] [] [] [] [])).
  { rewrite Hcat. apply zlookup_app_len. }
  eapply (push_loop (storage σ0) (len cat) _ starts ends prices names)
    in Hloop; [|reflexivity|exact Hnew|done|].
  - destruct (pushed_all _ _ _ _ _ _ _ _ H1 H2 H3 Hloop) as (Hc & Hopen & Hlt & Hmap & Hset).
    repeat exec_ok H. injection H as <-. cbn [storage].
    cbn [offerCatalog openSales _contractToOffer set_contractToOffer treasury treasuryFee
         nodeFee _owner same_settings].
    rewrite Hc, Hcat in *.
    replace (Z.to_nat (len cat)) with (length cat + 0)%nat in * by (unfold len; lia).
    rewrite insert_app_r in *.
    change (<[0%nat := ?x]> [?y]) with [x] in *.
    rewrite len_app in *. change (len [_]) with 1 in *.
    replace (len cat + 1 - 1) with (len cat) by lia.
    rewrite Hmap. destruct Hset as (? & ? & ? & ?). done.
  - clear H Hloop. intros j τ τ' Hj HI Hb. unfold _validateRangeInfo in Hb.
    repeat exec_ok Hb. bool_to_prop.
    destruct HI as (Hc & _).
    rewrite Hc, len_insert, Hcat, len_app in Hb. change (len [_]) with 1 in Hb.
    replace (len cat + 1 - 1) with (len cat) in Hb by lia.
    repeat match goal with
    | H : zlookup _ _ = Some _ |- _ => apply zlookup_some in H; destruct H as [_ H]
    end.
    eexists _, _, _, _. repeat split; eassumption.
Qed.

Lemma addOffer_ok env ctx token product starts ends prices names node σ σ' :
  addOffer env ctx token product starts ends prices names node σ = Ok (tt, σ') ->
  hasRole env token MINTER (this env) = Some true ∧
  hasRole env token CREATOR (sender ctx) = Some true ∧
  (offerCatalog (storage σ) = [] ∨
   ∃ o, zlookup (offerCatalog (storage σ)) (contractToOffer_slot (storage σ) token) = Some o ∧
        contractAddress o = address_zero) ∧
  length starts = length ends ∧ length prices = length starts ∧
  length names = length prices ∧
  (∃ m, getCollection_mintableTokensLeft env token product = Some m ∧ 0 < m) ∧
  Forall2 Z.lt starts ends ∧
  offerCatalog (storage σ')
  = offerCatalog (storage σ)
    ++ [push_ranges (mkOffer token node product [] [] [] [] []) starts ends prices names] ∧
  openSales (storage σ') = openSales (storage σ) + len names ∧
  _contractToOffer (storage σ')
  = <[token := len (offerCatalog (storage σ))]> (_contractToOffer (storage σ)) ∧
  same_settings (storage σ) (storage σ').
Proof.
  intros H. unfold addOffer, validateRoles in H.
  repeat exec_ok H.
  all: subst; bool_to_prop.
  all: repeat match goal with H : len _ = len _ |- _ => apply len_inj in H end.
  all: eapply addOffer_ranges_ok in H; [|reflexivity|done..].
  all: cbn [storage offerCatalog openSales _contractToOffer set_offerCatalog] in H.
  all: destruct H as (? & ? & ? & ? & ?).
  all: do 2 (split; [done|]).
  all: split; [|repeat match goal with |- _ ∧ _ => split end; eauto].
  - right. eauto.
  - left. destruct (offerCatalog (storage σ)); [done|]. unfold len in *. cbn in *. lia.
Qed.

Lemma buyToken_ok env ctx ci ri tok σ σ' :
  buyToken env ctx ci ri tok σ = Ok (tt, σ') ->
  ∃ o allowed startToken endToken price hasFees payout,
    purchase env ctx ci ri tok σ σ' o allowed startToken endToken price hasFees payout.
Proof.
  intros H. unfold buyToken in H.
  repeat exec_ok H.
  all: injection H as <-.
  all: bool_to_prop.
  all: cbn [contractAddress productIndex openSales set_offer set_offerCatalog] in *.
  all: eexists _, _, _, _, _, _, _.
  all: split; cbn [storage balance log]; try eassumption; try lia.
  all: try (unfold sold_storage, with_allowed;
            match goal with |- context [?a - 1 =? 0] => destruct (Z.eqb_spec (a - 1) 0) end; try lia; reflexivity).
  all: try (unfold creatorAmount, treasuryAmount, nodeAmount; lia).
  all: try (eexists _, _, _; repeat split; try eassumption; try lia; reflexivity).
  all: try reflexivity.
  all: try (unfold sold_storage, with_allowed, treasuryAmount, nodeAmount;
            match goal with |- context [?a - 1 =? 0] => destruct (Z.eqb_spec (a - 1) 0) end; try lia;
            rewrite <- ?app_assoc; reflexivity).
Qed.

(** ** Runs from the preconditions

    The other direction: from what holds before the call, the result of
    the run. *)

Lemma wf_offer_range o ri :
  wf_offer o -> 0 <= ri < len (tokensAllowed o) ->
  ∃ allowed startToken endToken price name,
    zlookup (tokensAllowed o) ri = Some allowed ∧
    zlookup (tokenRangeStart o) ri = Some startToken ∧
    zlookup (tokenRangeEnd o) ri = Some endToken ∧
    zlookup (rangePrice o) ri = Some price ∧
    zlookup (rangeName o) ri = Some name.
Proof.
  intros (H1 & H2 & H3 & H4) Hri.
  destruct (zlookup_in_bounds (tokensAllowed o) ri) as [a Ha]; [done|].
  destruct (zlookup_in_bounds (tokenRangeStart o) ri) as [s Hs]; [unfold len in *; lia|].
  destruct (zlookup_in_bounds (tokenRangeEnd o) ri) as [e He]; [unfold len in *; lia|].
  destruct (zlookup_in_bounds (rangePrice o) ri) as [p Hp]; [unfold len in *; lia|].
  destruct (zlookup_in_bounds (rangeName o) ri) as [n Hn]; [unfold len in *; lia|].
  eauto 10.
Qed.

Lemma validateRoles_run {B} env ctx a (k : bool -> M B) σ :
  hasRole env a MINTER (this env) = Some true ->
  hasRole env a CREATOR (sender ctx) = Some true ->
  bind (validateRoles env ctx a) k σ = k true σ.
Proof.
  intros Hm Hc. unfold validateRoles.
  rewrite bind_assoc, (bind_external_some _ _ _ _ Hm).
  rewrite bind_assoc, bind_require_true by done.
  rewrite bind_assoc, (bind_external_some _ _ _ _ Hc).
  rewrite bind_assoc, bind_require_true by done.
  reflexivity.
Qed.

(** The first steps of [buyToken] on an existing offer. *)
Ltac buy_start Hoffer :=
  unfold buyToken;
  rewrite bind_receive_value, bind_load; cbn [storage];
  rewrite (bind_index_some _ _ _ _ _ Hoffer).

Lemma buyToken_sold_out env ctx ci ri tok σ o :
  zlookup (offerCatalog (storage σ)) ci = Some o ->
  contractAddress o ≠ address_zero ->
  zlookup (tokensAllowed o) ri = Some 0 ->
  buyToken env ctx ci ri tok σ = Err RangeSoldOut.
Proof.
  intros Ho Hlive Ha. buy_start Ho.
  rewrite bind_require_true
    by (apply negb_true_iff; by apply bool_decide_eq_false).
  rewrite bind_require_true
    by (apply Z.ltb_lt; apply zlookup_bounds in Ha; lia).
  rewrite (bind_index_some _ _ _ _ _ Ha).
  by apply bind_require_false.
Qed.

Lemma updateOfferRange_run env ctx oi ri st en p nm σ o oldStart oldEnd allowed :
  zlookup (offerCatalog (storage σ)) oi = Some o ->
  wf_offer o ->
  zlookup (tokenRangeStart o) ri = Some oldStart ->
  zlookup (tokenRangeEnd o) ri = Some oldEnd ->
  zlookup (tokensAllowed o) ri = Some allowed ->
  0 <= oldStart -> oldEnd <= uint256_max -> allowed <= uint256_max ->
  en <= oldEnd -> oldStart <= st -> st < en ->
  hasRole env (contractAddress o) MINTER (this env) = Some true ->
  hasRole env (contractAddress o) CREATOR (sender ctx) = Some true ->
  (oldEnd - oldStart) - (en - st) <= allowed ->
  updateOfferRange env ctx oi ri st en p nm σ
  = Ok (tt, mkMachine
              (set_offer oi (update_range o ri st en
                               (allowed - ((oldEnd - oldStart) - (en - st))) p nm)
                         (storage σ))
              (balance σ)
              (log σ ++ [Emit (UpdatedOffer (contractAddress o) oi ri
                                 (allowed - ((oldEnd - oldStart) - (en - st))) p nm)])).
Proof.
  intros Ho Hwf Hs He Ha H0 Hmax Hamax Hen Hst Hlt Hm Hc Hd.
  destruct (wf_offer_range o ri Hwf) as (a' & s' & e' & pr & n & Ha' & Hs' & He' & Hp & Hn).
  { apply zlookup_bounds in Ha. lia. }
  unfold updateOfferRange.
  rewrite bind_load, (bind_index_some _ _ _ _ _ Ho), (bind_index_some _ _ _ _ _ He).
  destruct (Z.leb_spec en oldEnd); [|lia].
  rewrite bind_assoc, (bind_index_some _ _ _ _ _ Hs).
  rewrite bind_require_true by (by apply Z.leb_le).
  rewrite (validateRoles_run _ _ _ _ _ Hm Hc).
  unfold _validateRangeInfo. rewrite bind_require_true by (by apply Z.ltb_lt).
  rewrite (bind_index_some _ _ _ _ _ Ha), (bind_index_some _ _ _ _ _ He),
    (bind_index_some _ _ _ _ _ Hs).
  rewrite !bind_checked_in by lia.
  rewrite (bind_index_some _ _ _ _ _ Hs), (bind_index_some _ _ _ _ _ Hp),
    (bind_index_some _ _ _ _ _ Hn).
  rewrite bind_store. cbn [tokensAllowed].
  rewrite (bind_index_some _ _ (allowed - ((oldEnd - oldStart) - (en - st))))
    by (by apply (zlookup_insert_eq _ _ allowed)).
  reflexivity.
Qed.






(** Once the position the reverse index gives for a collection holds an
    offer with a collection address, whichever collection it is, the
    collection cannot be listed. This covers a second listing of the same
    collection, and every collection that was never listed once position 0
    is taken. *)
Lemma addOffer_slot_taken env ctx token product starts ends prices names node σ o :
  hasRole env token MINTER (this env) = Some true ->
  hasRole env token CREATOR (sender ctx) = Some true ->
  zlookup (offerCatalog (storage σ)) (contractToOffer_slot (storage σ) token) = Some o ->
  contractAddress o ≠ address_zero ->
  addOffer env ctx token product starts ends prices names node σ = Err OfferAlreadyExists.
Proof.
  intros Hm Hc Ho Hlive. unfold addOffer.
  rewrite (validateRoles_run _ _ _ _ _ Hm Hc), bind_load.
  destruct (Z.eqb_spec (len (offerCatalog (storage σ))) 0) as [Hz|_].
  { apply zlookup_bounds in Ho. lia. }
  cbn [negb]. rewrite bind_assoc, (bind_index_some _ _ _ _ _ Ho).
  apply bind_require_false. by apply bool_decide_eq_false.
Qed.

(** ** Supplies and amounts *)

Lemma remainingSupply_some s ci ri n :
  remainingSupply s ci ri = Some n <->
  ∃ o, zlookup (offerCatalog s) ci = Some o ∧ zlookup (tokensAllowed o) ri = Some n.
Proof.
  unfold remainingSupply. split.
  - destruct (zlookup (offerCatalog s) ci) as [o|]; [eauto|done].
  - intros (o & -> & ?). done.
Qed.

Lemma remainingSupply_sold s ci o ri a :
  zlookup (offerCatalog s) ci = Some o ->
  zlookup (tokensAllowed o) ri = Some a ->
  remainingSupply (sold_storage s ci o ri a) ci ri = Some (a - 1).
Proof.
  intros Ho Ha. unfold remainingSupply, sold_storage.
  assert (zlookup (offerCatalog (set_offer ci (with_allowed o ri (a - 1)) s)) ci
          = Some (with_allowed o ri (a - 1))) as Hl.
  { cbn. by apply (zlookup_insert_eq _ _ o). }
  destruct (a - 1 =? 0); cbn [offerCatalog set_openSales]; rewrite Hl;
    cbn [tokensAllowed with_allowed]; by apply (zlookup_insert_eq _ _ a).
Qed.

Lemma openSales_sold s ci o ri a :
  a - 1 = 0 -> openSales (sold_storage s ci o ri a) = openSales s - 1.
Proof. intros H. unfold sold_storage. rewrite H. reflexivity. Qed.

Lemma sold_storage_catalog s ci o ri a :
  offerCatalog (sold_storage s ci o ri a)
  = <[Z.to_nat ci := with_allowed o ri (a - 1)]> (offerCatalog s).
Proof. unfold sold_storage. by destruct (a - 1 =? 0). Qed.




(** ** Invariants of the catalog *)

Lemma offer_evolves_refl o : offer_evolves o o.
Proof. split; [done|]. intros r n H. exists n. split; [done|lia]. Qed.

Lemma offer_evolves_trans o1 o2 o3 :
  offer_evolves o1 o2 -> offer_evolves o2 o3 -> offer_evolves o1 o3.
Proof.
  intros [Ha1 H1] [Ha2 H2]. split; [congruence|].
  intros r n Hn. destruct (H1 r n Hn) as (n' & Hn' & ?).
  destruct (H2 r n' Hn') as (n'' & Hn'' & ?). exists n''. split; [done|lia].
Qed.

Lemma evolves_refl s : evolves s s.
Proof. intros ci o H. exists o. split; [done|apply offer_evolves_refl]. Qed.

Lemma evolves_trans s1 s2 s3 : evolves s1 s2 -> evolves s2 s3 -> evolves s1 s3.
Proof.
  intros H1 H2 ci o Ho. destruct (H1 ci o Ho) as (o' & Ho' & ?).
  destruct (H2 ci o' Ho') as (o'' & Ho'' & ?). exists o''.
  split; [done|]. by eapply offer_evolves_trans.
Qed.

Lemma evolves_same_catalog s s' : offerCatalog s' = offerCatalog s -> evolves s s'.
Proof. intros H ci o Ho. rewrite H. exists o. split; [done|apply offer_evolves_refl]. Qed.

Lemma evolves_insert s s' oi o o' :
  zlookup (offerCatalog s) oi = Some o ->
  offerCatalog s' = <[Z.to_nat oi := o']> (offerCatalog s) ->
  offer_evolves o o' ->
  evolves s s'.
Proof.
  intros Ho Hcat Hev ci o1 Ho1. rewrite Hcat.
  destruct (decide (oi = ci)) as [->|Hne].
  - rewrite Ho in Ho1. injection Ho1 as <-.
    exists o'. split; [|done]. by apply (zlookup_insert_eq _ _ o).
  - exists o1. split; [|apply offer_evolves_refl].
    rewrite zlookup_insert_ne; [done| |done]. apply zlookup_bounds in Ho. lia.
Qed.

Lemma evolves_app s s' l :
  offerCatalog s' = offerCatalog s ++ l -> evolves s s'.
Proof.
  intros Hcat ci o Ho. rewrite Hcat. exists o.
  split; [by apply zlookup_app_l | apply offer_evolves_refl].
Qed.

Lemma offer_evolves_push_ranges o starts ends prices names :
  offer_evolves o (push_ranges o starts ends prices names).
Proof.
  split; [done|]. intros r n H. exists n. split; [|lia].
  by apply zlookup_app_l.
Qed.

Lemma offer_evolves_push_range o st en p nm :
  offer_evolves o (push_range o st en p nm).
Proof.
  split; [done|]. intros r n H. exists n. split; [|lia].
  by apply zlookup_app_l.
Qed.

Lemma offer_evolves_insert o o' ri a a' :
  contractAddress o' = contractAddress o ->
  tokensAllowed o' = <[Z.to_nat ri := a']> (tokensAllowed o) ->
  zlookup (tokensAllowed o) ri = Some a -> a' <= a ->
  offer_evolves o o'.
Proof.
  intros Haddr Hta Ha Hle. split; [done|]. intros r n Hn. rewrite Hta.
  destruct (decide (ri = r)) as [->|Hne].
  - rewrite Ha in Hn. injection Hn as <-. exists a'. split; [|done].
    by apply (zlookup_insert_eq _ _ a).
  - exists n. split; [|lia]. rewrite zlookup_insert_ne; [done| |done].
    apply zlookup_bounds in Ha. lia.
Qed.

(** Every transaction changes the catalog in one of five ways; only a
    call of [updateOfferRange] changes it as an update. *)
Lemma step_catalog_change σ t :
  ∃ k, catalog_change (storage σ) (storage (step σ t)) k ∧
       (k = Updated -> ∃ oi ri st en p nm, tx_call t = CallUpdateOfferRange oi ri st en p nm).
Proof.
  unfold step, transact.
  destruct (dispatch (tx_env t) (tx_ctx t) (tx_call t) σ) as [[[] σ']|e] eqn:E;
    cbn [fst]; [|exists Unchanged; split; [by apply change_none|done]].
  destruct (tx_call t) eqn:Hc; cbn [dispatch] in E.
  - apply addOffer_ok in E.
    destruct E as (_ & _ & _ & ? & ? & ? & _ & ? & ? & ? & _).
    exists Listed. split; [|done].
    by eapply (change_listed _ _ _tokenAddress _nodeAddress _productIndex
                 _rangeStartToken _rangeEndToken _rangePrice _rangeName).
  - apply updateOfferRange_ok in E.
    destruct E as (o & s & e & a & ? & ? & ? & ? & ? & ? & ? & _ & _ & ? & ? & ? & Hst & _).
    exists Updated. split; [|by eauto 10].
    eapply (change_updated _ _ offerIndex rangeIndex o s e a); try eassumption.
    + by rewrite Hst.
    + by rewrite Hst.
  - apply appendOfferRange_ok in E.
    destruct E as (o & ? & _ & _ & ? & _ & _ & Hst & _).
    exists Appended. split; [|done].
    eapply (change_appended _ _ offerIndex o [startToken] [endToken] [price] [name]);
      try done.
    + by repeat constructor.
    + by rewrite Hst.
    + by rewrite Hst.
  - apply appendOfferRangeBatch_ok in E.
    destruct E as (o & ? & _ & _ & ? & ? & ? & ? & ? & ? & _).
    exists Appended. split; [|done].
    by eapply (change_appended _ _ offerIndex o startTokens endTokens prices names).
  - apply buyToken_ok in E.
    destruct E as (o & a & st & en & p & hf & payout & P).
    purchase_fields P.
    exists Sold. split; [|done].
    eapply (change_sold _ _ catalogIndex rangeIndex o a); try done.
    + rewrite p_storage0. apply sold_storage_catalog.
    + rewrite p_storage0. unfold sold_storage. by destruct (a - 1 =? 0).
  - unfold setTreasuryAddress, onlyOwner in E. repeat exec_ok E. injection E as <-.
    exists Unchanged. split; [by apply change_none|done].
  - unfold setTreasuryFee, onlyOwner in E. repeat exec_ok E. injection E as <-.
    exists Unchanged. split; [by apply change_none|done].
  - unfold setNodeFee, onlyOwner in E. repeat exec_ok E. injection E as <-.
    exists Unchanged. split; [by apply change_none|done].
Qed.

Lemma catalog_change_evolves s s' k : catalog_change s s' k -> evolves s s'.
Proof.
  intros [Hc _|? ? ? ? ? ? ? _ _ _ _ Hc _|oi o ? ? ? ? Ho _ _ _ _ Hc _
          |oi ri o s0 e0 a st en p nm Ho _ _ Ha _ _ _ _ _ Hd Hc _
          |ci ri o a Ho Ha Hpos Hc _].
  - by apply evolves_same_catalog.
  - by eapply evolves_app.
  - eapply evolves_insert; [done..|]. apply offer_evolves_push_ranges.
  - eapply evolves_insert; [done..|].
    eapply (offer_evolves_insert _ _ ri a); [done|reflexivity|done|lia].
  - eapply evolves_insert; [done..|].
    eapply (offer_evolves_insert _ _ ri a); [done|reflexivity|done|lia].
Qed.

Lemma catalog_change_nonneg s s' k :
  catalog_change s s' k -> supply_nonneg s -> supply_nonneg s'.
Proof.
  unfold supply_nonneg.
  intros [Hc _|? ? ? starts ends ? ? _ _ _ Hlt Hc _|oi o starts ends ? ? Ho _ _ _ Hlt Hc _
          |oi ri o s0 e0 a st en p nm Ho _ _ Ha _ _ _ _ _ Hd Hc _
          |ci ri o a Ho Ha Hpos Hc _] Hs; rewrite Hc.
  - done.
  - apply Forall_app. split; [done|]. constructor; [|done]. cbn.
    eapply Forall_impl; [by apply zip_widths_pos|]. cbn. lia.
  - apply Forall_insert; [done|]. cbn. apply Forall_app. split.
    + by apply (Forall_zlookup _ _ _ _ Hs Ho).
    + eapply Forall_impl; [by apply zip_widths_pos|]. cbn. lia.
  - apply Forall_insert; [done|]. cbn. apply Forall_insert; [|lia].
    by apply (Forall_zlookup _ _ _ _ Hs Ho).
  - apply Forall_insert; [done|]. cbn. apply Forall_insert; [|lia].
    by apply (Forall_zlookup _ _ _ _ Hs Ho).
Qed.

Lemma catalog_change_wf s s' k :
  catalog_change s s' k -> wf_storage s -> wf_storage s'.
Proof.
  unfold wf_storage.
  intros [Hc _|? ? ? starts ends ? ? H1 H2 H3 Hlt Hc _|oi o starts ends ? ? Ho H1 H2 H3 Hlt Hc _
          |oi ri o s0 e0 a st en p nm Ho _ _ Ha _ _ _ _ _ Hd Hc _
          |ci ri o a Ho Ha Hpos Hc _] Hs; rewrite Hc.
  - done.
  - apply Forall_app. split; [done|]. constructor; [|done].
    unfold wf_offer. cbn. rewrite length_zip_with. lia.
  - apply Forall_insert; [done|].
    pose proof (Forall_zlookup _ _ _ _ Hs Ho) as (? & ? & ? & ?).
    unfold wf_offer. cbn. rewrite !length_app, length_zip_with. lia.
  - apply Forall_insert; [done|].
    pose proof (Forall_zlookup _ _ _ _ Hs Ho) as (? & ? & ? & ?).
    unfold wf_offer. cbn. by rewrite !length_insert.
  - apply Forall_insert; [done|].
    pose proof (Forall_zlookup _ _ _ _ Hs Ho) as (? & ? & ? & ?).
    unfold wf_offer. cbn. by rewrite !length_insert.
Qed.

(** Induction over the histories of the contract. *)
Lemma run_invariant (P : Machine -> Prop) txs σ :
  (∀ τ t, P τ -> P (step τ t)) -> P σ -> P (run txs σ).
Proof.
  intros Hstep. revert σ. induction txs as [|t txs IH]; intros σ H; cbn; [done|].
  apply IH. by apply Hstep.
Qed.

Lemma reachable_invariant (P : Machine -> Prop) :
  (∀ owner t tf nf funds, P (deployed owner t tf nf funds)) ->
  (∀ τ t, P τ -> P (step τ t)) ->
  ∀ σ, reachable σ -> P σ.
Proof.
  intros H0 Hstep σ (owner & t & tf & nf & funds & txs & ->).
  by apply run_invariant.
Qed.

Lemma reachable_nonneg σ : reachable σ -> supply_nonneg (storage σ).
Proof.
  revert σ. apply reachable_invariant.
  - intros. constructor.
  - intros τ t H. destruct (step_catalog_change τ t) as (k & Hk & _).
    by eapply catalog_change_nonneg.
Qed.

Lemma reachable_wf σ : reachable σ -> wf_storage (storage σ).
Proof.
  revert σ. apply reachable_invariant.
  - intros. constructor.
  - intros τ t H. destruct (step_catalog_change τ t) as (k & Hk & _).
    by eapply catalog_change_wf.
Qed.

Lemma run_evolves txs σ : evolves (storage σ) (storage (run txs σ)).
Proof.
  revert σ. induction txs as [|t txs IH]; intros σ; cbn; [apply evolves_refl|].
  eapply evolves_trans; [|apply IH].
  destruct (step_catalog_change σ t) as (k & Hk & _).
  by eapply catalog_change_evolves.
Qed.

(** ** Counting the open ranges *)

Lemma open_filter_cons n l :
  len (filter (fun n => 0 < n) (n :: l)) = open1 n + len (filter (fun n => 0 < n) l).
Proof.
  rewrite filter_cons. unfold open1, len. destruct (decide (0 < n)); cbn [length]; lia.
Qed.


Lemma open_filter_insert l i x y :
  l !! i = Some x ->
  len (filter (fun n => 0 < n) (<[i := y]> l))
  = len (filter (fun n => 0 < n) l) - open1 x + open1 y.
Proof.
  revert i. induction l as [|z l IH]; intros [|i] H; try done.
  - injection H as ->. cbn [insert list_insert]. rewrite !open_filter_cons. lia.
  - cbn in H. change (<[S i := y]> (z :: l)) with (z :: <[i := y]> l).
    rewrite !open_filter_cons, (IH i H). lia.
Qed.



Lemma open_sum_insert l i o o' :
  l !! i = Some o ->
  open_sum (<[i := o']> l) = open_sum l - open_ranges_of o + open_ranges_of o'.
Proof.
  revert i. induction l as [|z l IH]; intros [|i] H; try done.
  - injection H as ->. cbn. lia.
  - cbn in H. change (<[S i := o']> (z :: l)) with (z :: <[i := o']> l).
    cbn. fold (open_sum (<[i := o']> l)) (open_sum l). rewrite (IH i H). lia.
Qed.



Lemma open_ranges_of_insert o o' ri a a' :
  tokensAllowed o' = <[Z.to_nat ri := a']> (tokensAllowed o) ->
  zlookup (tokensAllowed o) ri = Some a ->
  open_ranges_of o' = open_ranges_of o - open1 a + open1 a'.
Proof.
  intros Hta [_ Ha]%zlookup_some. unfold open_ranges_of.
  rewrite Hta. by apply open_filter_insert.
Qed.


(** A range update keeps it too, unless it takes the last tokens of a
    range that had some. *)
Lemma catalog_change_update_counts s s' oi ri o allowed allowed' st en p nm :
  zlookup (offerCatalog s) oi = Some o ->
  zlookup (tokensAllowed o) ri = Some allowed ->
  offerCatalog s' = <[Z.to_nat oi := update_range o ri st en allowed' p nm]> (offerCatalog s) ->
  openSales s' = openSales s ->
  0 < allowed' ∨ allowed <= 0 -> allowed' <= allowed ->
  openSales_counts s -> openSales_counts s'.
Proof.
  unfold openSales_counts, open_ranges. intros Ho Ha Hc Hop Hcross Hle Hs.
  rewrite Hc, Hop. pose proof Ho as [_ Ho']%zlookup_some.
  rewrite (open_sum_insert _ _ _ _ Ho').
  rewrite (open_ranges_of_insert o (update_range o ri st en allowed' p nm) ri allowed allowed')
    by done.
  unfold open1. destruct (decide (0 < allowed)); destruct (decide (0 < allowed')); lia.
Qed.



(** ** The properties of the specification *)

(** C1 (defect in [addOffer]). The claim says that a collection with no
    live offer is never refused with [OfferAlreadyExists], and is listed when
    the roles, the array lengths and the mintable supply are in order.
    [addOffer] reads the offer at the position the reverse index gives for
    the collection, position 0 for a collection that was never listed, and
    requires the address stored there to be [address(0)], where
    [contractToOffer] compares it with the collection asked for. In the
    market of [Scenario], collection 2 is the collection of no offer, has no
    entry in the reverse index and [contractToOffer] finds no offer for it;
    the caller holds both roles and the collection has 10 tokens left. Its
    listing is refused with [OfferAlreadyExists] all the same, because the
    offer of collection 1 sits at position 0. The same listing is accepted by
    the empty catalog. *)
Theorem C1_unlisted_collection_rejected :
  Forall (fun o => contractAddress o ≠ 2) (offerCatalog (storage Scenario.listed)) ∧
  _contractToOffer (storage Scenario.listed) !! 2 = None ∧
  contractToOffer 2 Scenario.listed = Err NoOfferForCollection ∧
  hasRole Scenario.env 2 MINTER (this Scenario.env) = Some true ∧
  hasRole Scenario.env 2 CREATOR (sender Scenario.creator) = Some true ∧
  getCollection_mintableTokensLeft Scenario.env 2 0 = Some 10 ∧
  transact (addOffer Scenario.env Scenario.creator 2 0 [1] [3] [15] ["a"] 60) Scenario.listed
  = (Scenario.listed, Some OfferAlreadyExists) ∧
  (∃ σ', addOffer Scenario.env Scenario.creator 2 0 [1] [3] [15] ["a"] 60 Scenario.start
         = Ok (tt, σ')).
Proof.
  repeat split; try (vm_compute; reflexivity).
  - vm_compute. repeat constructor. discriminate.
  - eexists. vm_compute. reflexivity.
Qed.




(** C3 (defect in [updateOfferRange]). The claim says that [openSales]
    equals the number of ranges with tokens left after every operation.
    After tokens 1 to 3 are listed and two of them sold, the range has 1
    token left, the counter is 1 and the invariant holds. Shrinking the range
    to tokens 1 to 2 is accepted and takes the last token of the range: no
    range is open any more and [openSales] is still 1. [updateOfferRange]
    never writes [openSales], where [buyToken] decrements it when a range
    runs out; [step_counts] shows that every other entry point preserves the
    invariant. *)
Theorem C3_update_breaks_open_sales_count :
  openSales_counts (storage Scenario.sold_two) ∧
  remainingSupply (storage Scenario.sold_two) 0 0 = Some 1 ∧
  transact (updateOfferRange Scenario.env Scenario.creator 0 0 1 2 15 "a") Scenario.sold_two
  = (step Scenario.sold_two (Scenario.shrinking 1 2), None) ∧
  remainingSupply (storage (step Scenario.sold_two (Scenario.shrinking 1 2))) 0 0 = Some 0 ∧
  open_ranges (storage (step Scenario.sold_two (Scenario.shrinking 1 2))) = 0 ∧
  openSales (storage (step Scenario.sold_two (Scenario.shrinking 1 2))) = 1 ∧
  ¬ openSales_counts (storage (step Scenario.sold_two (Scenario.shrinking 1 2))).
Proof.
  repeat split; try (vm_compute; reflexivity).
  vm_compute. discriminate.
Qed.

(** C4. In every successful purchase the collection's [mint] is called once,
    as the last effect before the [TokenMinted] event, and the storage it is
    called with already holds the range's supply less one. When that leaves
    0, the same storage holds [openSales] less one and the [SoldOut] event is
    the effect right before the call. *)
Theorem C4_supply_decremented_before_mint env ctx ci ri tok σ σ' :
  buyToken env ctx ci ri tok σ = Ok (tt, σ') ->
  ∃ o allowed before seen,
    zlookup (offerCatalog (storage σ)) ci = Some o ∧
    remainingSupply (storage σ) ci ri = Some allowed ∧
    log σ' = log σ ++ before
             ++ [MintCall seen (contractAddress o) (sender ctx) (productIndex o) tok;
                 Emit (TokenMinted (sender ctx) (contractAddress o) ci ri tok)] ∧
    forallb (fun e => negb (is_mint e)) before = true ∧
    remainingSupply seen ci ri = Some (allowed - 1) ∧
    (allowed - 1 = 0 ->
     openSales seen = openSales (storage σ) - 1 ∧
     last before = Some (Emit (SoldOut (contractAddress o) ci ri))).
Proof.
  intros H. apply buyToken_ok in H.
  destruct H as (o & a & st & en & p & hf & payout & P).
  purchase_fields P.
  exists o, a,
    (payout ++ [Transfer (sender ctx) (value ctx - p);
                Transfer (treasury (storage σ)) (treasuryAmount (storage σ) p);
                Transfer (nodeAddress o) (nodeAmount (storage σ) p)]
            ++ (if a - 1 =? 0 then [Emit (SoldOut (contractAddress o) ci ri)] else [])),
    (storage σ').
  split; [done|]. split.
  { unfold remainingSupply. by rewrite p_offer0. }
  split.
  { rewrite p_log0. by rewrite <- !app_assoc. }
  split.
  { rewrite !forallb_app.
    assert (forallb (fun e => negb (is_mint e)) payout = true) as ->.
    { destruct hf; [|by subst].
      destruct p_payout0 as (? & ? & ? & _ & _ & _ & _ & ->). reflexivity. }
    by destruct (a - 1 =? 0). }
  split.
  { rewrite p_storage0. by apply remainingSupply_sold. }
  intros Hz. split.
  - rewrite p_storage0. by apply openSales_sold.
  - rewrite Hz. cbn [Z.eqb]. rewrite !app_assoc. apply last_snoc.
Qed.

(** C4 at the first purchase of the market. *)
Lemma C4_witness :
  ∃ o allowed before seen,
    remainingSupply (storage Scenario.listed) 0 0 = Some allowed ∧
    remainingSupply seen 0 0 = Some (allowed - 1) ∧
    log Scenario.sold_one
    = log Scenario.listed ++ before
      ++ [MintCall seen (contractAddress o) 8 (productIndex o) 1;
          Emit (TokenMinted 8 (contractAddress o) 0 0 1)].
Proof.
  assert (Hbuy : buyToken Scenario.env (Scenario.buyer 15) 0 0 1 Scenario.listed
                 = Ok (tt, Scenario.sold_one)) by (vm_compute; reflexivity).
  destruct (C4_supply_decremented_before_mint _ _ _ _ _ _ _ Hbuy)
    as (o & a & before & seen & _ & Ha & Hlog & _ & Hseen & _).
  exists o, a, before, seen. auto.
Defined.

(** C5. On an existing range, [updateOfferRange] fails with
    [RangeExpansionNotAllowed] unless [newEnd <= oldEnd] and
    [newStart >= oldStart]. When it succeeds the range has the new bounds,
    the supply [allowed - ((oldEnd - oldStart) - (newEnd - newStart))], the
    new price and the new name, and the [UpdatedOffer] event carries that
    supply. It does succeed when the bounds shrink, are ordered, the caller
    holds the roles and the supply covers the shrink. When it fails the
    machine, and so the offer, is as before. *)
Theorem C5_updateOfferRange_shrinks_only env ctx oi ri st en p nm σ o oldStart oldEnd allowed :
  zlookup (offerCatalog (storage σ)) oi = Some o ->
  zlookup (tokenRangeStart o) ri = Some oldStart ->
  zlookup (tokenRangeEnd o) ri = Some oldEnd ->
  zlookup (tokensAllowed o) ri = Some allowed ->
  let allowed' := allowed - ((oldEnd - oldStart) - (en - st)) in
  let o' := update_range o ri st en allowed' p nm in
  (¬ (en <= oldEnd ∧ oldStart <= st) ->
   updateOfferRange env ctx oi ri st en p nm σ = Err RangeExpansionNotAllowed) ∧
  (∀ σ', updateOfferRange env ctx oi ri st en p nm σ = Ok (tt, σ') ->
     (en <= oldEnd ∧ oldStart <= st) ∧
     storage σ' = set_offer oi o' (storage σ) ∧
     zlookup (offerCatalog (storage σ')) oi = Some o' ∧
     zlookup (tokenRangeStart o') ri = Some st ∧
     zlookup (tokenRangeEnd o') ri = Some en ∧
     zlookup (tokensAllowed o') ri = Some allowed' ∧
     zlookup (rangePrice o') ri = Some p ∧
     zlookup (rangeName o') ri = Some nm ∧
     log σ' = log σ ++ [Emit (UpdatedOffer (contractAddress o) oi ri allowed' p nm)]) ∧
  (wf_offer o ->
   0 <= oldStart -> oldEnd <= uint256_max -> allowed <= uint256_max ->
   en <= oldEnd -> oldStart <= st -> st < en ->
   hasRole env (contractAddress o) MINTER (this env) = Some true ->
   hasRole env (contractAddress o) CREATOR (sender ctx) = Some true ->
   (oldEnd - oldStart) - (en - st) <= allowed ->
   ∃ σ', updateOfferRange env ctx oi ri st en p nm σ = Ok (tt, σ')) ∧
  (∀ e, updateOfferRange env ctx oi ri st en p nm σ = Err e ->
     transact (updateOfferRange env ctx oi ri st en p nm) σ = (σ, Some e) ∧
     zlookup (offerCatalog (storage (fst (transact (updateOfferRange env ctx oi ri st en p nm) σ)))) oi
     = Some o).
Proof.
  intros Ho Hs He Ha allowed' o'. split; [|split; [|split]].
  - intros Hnot. unfold updateOfferRange.
    rewrite bind_load, (bind_index_some _ _ _ _ _ Ho), (bind_index_some _ _ _ _ _ He).
    destruct (Z.leb_spec en oldEnd); [|reflexivity].
    rewrite bind_assoc, (bind_index_some _ _ _ _ _ Hs).
    apply bind_require_false. apply Z.leb_gt. lia.
  - intros σ' H. apply updateOfferRange_ok in H.
    destruct H as (o1 & s1 & e1 & a1 & Ho1 & Hs1 & He1 & Ha1 & ? & ? & ? & _ & _ & ?
                   & Hpr & Hnm & Hst & _ & Hlog).
    rewrite Ho in Ho1. injection Ho1 as <-.
    rewrite Hs in Hs1. injection Hs1 as <-.
    rewrite He in He1. injection He1 as <-.
    rewrite Ha in Ha1. injection Ha1 as <-.
    split; [done|]. split; [done|]. split.
    { rewrite Hst. cbn. by apply (zlookup_insert_eq _ _ o). }
    split; [by apply (zlookup_insert_eq _ _ oldStart)|].
    split; [by apply (zlookup_insert_eq _ _ oldEnd)|].
    split; [by apply (zlookup_insert_eq _ _ allowed)|].
    destruct Hpr as [price Hpr], Hnm as [name Hnm].
    split; [by apply (zlookup_insert_eq _ _ price)|].
    split; [by apply (zlookup_insert_eq _ _ name)|].
    done.
  - intros. eexists. by apply updateOfferRange_run.
  - intros e H. rewrite (transact_err _ _ _ H). done.
Qed.

(** C5 on the listed range 1 to 3: growing it to 4 is refused, shrinking it
    to 2 is accepted. *)
Lemma C5_witness :
  updateOfferRange Scenario.env Scenario.creator 0 0 1 4 15 "a" Scenario.listed
  = Err RangeExpansionNotAllowed ∧
  ∃ σ', updateOfferRange Scenario.env Scenario.creator 0 0 1 2 15 "a" Scenario.listed
        = Ok (tt, σ').
Proof.
  split.
  - apply (C5_updateOfferRange_shrinks_only Scenario.env Scenario.creator 0 0 1 4 15 "a"
             Scenario.listed Scenario.listed_offer 1 3 3);
      [vm_compute; reflexivity..|lia].
  - apply (C5_updateOfferRange_shrinks_only Scenario.env Scenario.creator 0 0 1 2 15 "a"
             Scenario.listed Scenario.listed_offer 1 3 3);
      try (vm_compute; reflexivity); try lia; try (vm_compute; discriminate).
    repeat split.
Defined.

(** C6. In every state the contract can reach: no range has a negative
    supply; a successful purchase takes exactly 1 from the supply of its
    range, which was positive; and once the supply of a range is 0 it stays 0
    after any further transactions, no purchase on the range succeeds, and on
    an offer with a collection address it fails with [RangeSoldOut]. *)
Theorem C6_supply_never_negative σ :
  reachable σ ->
  (∀ ci ri n, remainingSupply (storage σ) ci ri = Some n -> 0 <= n) ∧
  (∀ env ctx ci ri tok σ',
     buyToken env ctx ci ri tok σ = Ok (tt, σ') ->
     ∃ n, remainingSupply (storage σ) ci ri = Some n ∧ 0 < n ∧
          remainingSupply (storage σ') ci ri = Some (n - 1)) ∧
  (∀ ci ri, remainingSupply (storage σ) ci ri = Some 0 ->
     ∀ txs env ctx tok,
       remainingSupply (storage (run txs σ)) ci ri = Some 0 ∧
       (∀ σ', buyToken env ctx ci ri tok (run txs σ) ≠ Ok (tt, σ')) ∧
       (∀ o, zlookup (offerCatalog (storage (run txs σ))) ci = Some o ->
             contractAddress o ≠ address_zero ->
             buyToken env ctx ci ri tok (run txs σ) = Err RangeSoldOut)).
Proof.
  intros Hreach. split; [|split].
  - intros ci ri n (o & Ho & Hn)%remainingSupply_some.
    pose proof (reachable_nonneg σ Hreach) as Hs.
    pose proof (Forall_zlookup _ _ _ _ Hs Ho) as Ho'. cbn in Ho'.
    by apply (Forall_zlookup _ _ _ _ Ho' Hn).
  - intros env ctx ci ri tok σ' H. apply buyToken_ok in H.
    destruct H as (o & a & st & en & p & hf & payout & P).
    purchase_fields P.
    exists a. split; [|split; [done|]].
    + apply remainingSupply_some; eauto.
    + rewrite p_storage0. by apply remainingSupply_sold.
  - intros ci ri (o & Ho & Hn)%remainingSupply_some txs env ctx tok.
    destruct (run_evolves txs σ ci o Ho) as (o' & Ho' & Haddr & Hle).
    destruct (Hle ri 0 Hn) as (n' & Hn' & Hn0).
    assert (Hreach' : reachable (run txs σ)).
    { destruct Hreach as (ow & t & tf & nf & funds & txs0 & ->).
      exists ow, t, tf, nf, funds, (txs0 ++ txs). unfold run. by rewrite fold_left_app. }
    pose proof (reachable_nonneg _ Hreach') as Hs.
    pose proof (Forall_zlookup _ _ _ _ Hs Ho') as Hs'. cbn in Hs'.
    pose proof (Forall_zlookup _ _ _ _ Hs' Hn') as Hpos. cbn in Hpos.
    assert (n' = 0) as -> by lia.
    split; [|split].
    + apply remainingSupply_some; eauto.
    + intros σ' H. apply buyToken_ok in H.
      destruct H as (o1 & a & st & en & p & hf & payout & P).
      purchase_fields P.
      rewrite Ho' in p_offer0. injection p_offer0 as <-.
      rewrite Hn' in p_allowed0. injection p_allowed0 as <-. lia.
    + intros o1 Ho1 Hlive. rewrite Ho' in Ho1. injection Ho1 as <-.
      by apply (buyToken_sold_out _ _ _ _ _ _ o').
Qed.

(** C6 after the three tokens of the range are sold and the creator has
    updated the range with its own bounds. *)
Lemma C6_witness :
  buyToken Scenario.env (Scenario.buyer 15) 0 0 2
           (run [Scenario.shrinking 1 3] Scenario.drained) = Err RangeSoldOut.
Proof.
  assert (Hreach : reachable Scenario.drained).
  { exists 0, 50, 9000, 1000, 0,
      [Scenario.listing; Scenario.buying 1 15; Scenario.buying 2 15; Scenario.buying 3 15].
    reflexivity. }
  assert (H0 : remainingSupply (storage Scenario.drained) 0 0 = Some 0)
    by (vm_compute; reflexivity).
  assert (Ho : zlookup (offerCatalog (storage (run [Scenario.shrinking 1 3] Scenario.drained))) 0
               = Some Scenario.drained_offer) by (vm_compute; reflexivity).
  assert (Hlive : contractAddress Scenario.drained_offer ≠ address_zero)
    by (vm_compute; discriminate).
  exact (proj2 (proj2 (proj2 (proj2 (C6_supply_never_negative Scenario.drained Hreach))
                         0 0 H0 [Scenario.shrinking 1 3] Scenario.env (Scenario.buyer 15) 2))
           Scenario.drained_offer Ho Hlive).
Defined.

(** C7. On an existing offer whose arrays have equal lengths, [buyToken]
    fails with [InvalidOffer] when the stored collection address is zero;
    otherwise with [InvalidRange] when [rangeIndex] is out of bounds;
    otherwise with [RangeSoldOut] when the supply of the range is 0;
    otherwise with [TokenOutsideRange] when the token is not within the
    bounds of the range; otherwise with [InsufficientFunds] when less than
    the price is paid. Whenever [buyToken] fails the machine is left as it
    was. *)
Theorem C7_buyToken_validation_order env ctx ci ri tok σ o :
  zlookup (offerCatalog (storage σ)) ci = Some o ->
  wf_offer o ->
  0 <= ri ->
  (contractAddress o = address_zero ->
   buyToken env ctx ci ri tok σ = Err InvalidOffer) ∧
  (contractAddress o ≠ address_zero -> len (tokensAllowed o) <= ri ->
   buyToken env ctx ci ri tok σ = Err InvalidRange) ∧
  (contractAddress o ≠ address_zero -> ri < len (tokensAllowed o) ->
   ∃ allowed startToken endToken price,
     zlookup (tokensAllowed o) ri = Some allowed ∧
     zlookup (tokenRangeStart o) ri = Some startToken ∧
     zlookup (tokenRangeEnd o) ri = Some endToken ∧
     zlookup (rangePrice o) ri = Some price ∧
     (allowed = 0 -> buyToken env ctx ci ri tok σ = Err RangeSoldOut) ∧
     (0 < allowed -> ¬ (startToken <= tok <= endToken) ->
      buyToken env ctx ci ri tok σ = Err TokenOutsideRange) ∧
     (0 < allowed -> startToken <= tok <= endToken -> value ctx < price ->
      buyToken env ctx ci ri tok σ = Err InsufficientFunds)) ∧
  (∀ e, buyToken env ctx ci ri tok σ = Err e ->
        transact (buyToken env ctx ci ri tok) σ = (σ, Some e)).
Proof.
  intros Hoffer Hwf Hri. repeat split.
  - intros Hz. buy_start Hoffer.
    apply bind_require_false. apply negb_false_iff. by apply bool_decide_eq_true.
  - intros Hnz Hlen. buy_start Hoffer.
    rewrite bind_require_true
      by (apply negb_true_iff; by apply bool_decide_eq_false).
    apply bind_require_false. by apply Z.ltb_ge.
  - intros Hnz Hlen.
    destruct (wf_offer_range o ri Hwf) as (a & s & e & p & n & Ha & Hs & He & Hp & Hn); [lia|].
    exists a, s, e, p. repeat (split; [done|]).
    repeat split.
    + intros ->. buy_start Hoffer.
      rewrite bind_require_true
        by (apply negb_true_iff; by apply bool_decide_eq_false).
      rewrite bind_require_true by (by apply Z.ltb_lt).
      rewrite (bind_index_some _ _ _ _ _ Ha).
      by apply bind_require_false.
    + intros Hpos Hout. buy_start Hoffer.
      rewrite bind_require_true
        by (apply negb_true_iff; by apply bool_decide_eq_false).
      rewrite bind_require_true by (by apply Z.ltb_lt).
      rewrite (bind_index_some _ _ _ _ _ Ha).
      rewrite bind_require_true by (by apply Z.ltb_lt).
      rewrite (bind_index_some _ _ _ _ _ Hs).
      destruct (Z.leb_spec s tok).
      * rewrite bind_assoc, (bind_index_some _ _ _ _ _ He).
        apply bind_require_false. apply Z.leb_gt. lia.
      * reflexivity.
    + intros Hpos Hin Hpay. buy_start Hoffer.
      rewrite bind_require_true
        by (apply negb_true_iff; by apply bool_decide_eq_false).
      rewrite bind_require_true by (by apply Z.ltb_lt).
      rewrite (bind_index_some _ _ _ _ _ Ha).
      rewrite bind_require_true by (by apply Z.ltb_lt).
      rewrite (bind_index_some _ _ _ _ _ Hs).
      destruct (Z.leb_spec s tok); [|lia].
      rewrite bind_assoc, (bind_index_some _ _ _ _ _ He).
      rewrite bind_require_true by (apply Z.leb_le; lia).
      rewrite (bind_index_some _ _ _ _ _ Hp).
      apply bind_require_false. apply Z.leb_gt. lia.
  - intros e. apply transact_err.
Qed.

(** C7 on token 11 of the range 1 to 3. *)
Lemma C7_witness :
  buyToken Scenario.env (Scenario.buyer 15) 0 0 11 Scenario.listed = Err TokenOutsideRange.
Proof.
  assert (Ho : zlookup (offerCatalog (storage Scenario.listed)) 0 = Some Scenario.listed_offer)
    by (vm_compute; reflexivity).
  assert (Hwf : wf_offer Scenario.listed_offer) by (repeat split).
  destruct (C7_buyToken_validation_order Scenario.env (Scenario.buyer 15) 0 0 11
              Scenario.listed Scenario.listed_offer Ho Hwf ltac:(lia))
    as (_ & _ & H & _).
  destruct H as (a & s & e & p & Ha & Hs & He & _ & _ & Hout & _).
  - vm_compute. discriminate.
  - vm_compute. reflexivity.
  - vm_compute in Ha, Hs, He.
    injection Ha as <-. injection Hs as <-. injection He as <-.
    apply Hout; lia.
Defined.

(** C8. A successful purchase makes the payments below and no other. When
    the collection reports the royalty interface: the creator share
    [price * (100000 - (treasuryFee + nodeFee)) / 100000] to the receiver
    named by [royaltyInfo], then the refund, the treasury share and the node
    share. When it does not: the refund, the treasury share and the node
    share only, and the balance of the contract keeps the rest of the price,
    creator share included. *)
Theorem C8_creator_paid_iff_royalty_interface env ctx ci ri tok σ σ' :
  buyToken env ctx ci ri tok σ = Ok (tt, σ') ->
  ∃ o price hasFees rest,
    zlookup (offerCatalog (storage σ)) ci = Some o ∧
    zlookup (rangePrice o) ri = Some price ∧
    supportsInterface_IERC2981 env (contractAddress o) = Some hasFees ∧
    forallb (fun e => negb (is_transfer e)) rest = true ∧
    (hasFees = true ->
     ∃ name receiver amount,
       zlookup (rangeName o) ri = Some name ∧
       royaltyInfo env (contractAddress o) 0 price name = Some (receiver, amount) ∧
       log σ' = log σ
                ++ [Transfer receiver (creatorAmount (storage σ) price);
                    Transfer (sender ctx) (value ctx - price);
                    Transfer (treasury (storage σ)) (treasuryAmount (storage σ) price);
                    Transfer (nodeAddress o) (nodeAmount (storage σ) price)]
                ++ rest ∧
       balance σ' = balance σ + price - creatorAmount (storage σ) price
                    - treasuryAmount (storage σ) price - nodeAmount (storage σ) price) ∧
    (hasFees = false ->
     log σ' = log σ
              ++ [Transfer (sender ctx) (value ctx - price);
                  Transfer (treasury (storage σ)) (treasuryAmount (storage σ) price);
                  Transfer (nodeAddress o) (nodeAmount (storage σ) price)]
              ++ rest ∧
     balance σ' = balance σ + price
                  - treasuryAmount (storage σ) price - nodeAmount (storage σ) price).
Proof.
  intros H. apply buyToken_ok in H.
  destruct H as (o & a & st & en & p & hf & payout & P).
  purchase_fields P.
  exists o, p, hf,
    ((if a - 1 =? 0 then [Emit (SoldOut (contractAddress o) ci ri)] else [])
     ++ [MintCall (storage σ') (contractAddress o) (sender ctx) (productIndex o) tok;
         Emit (TokenMinted (sender ctx) (contractAddress o) ci ri tok)]).
  repeat (split; [done|]).
  split; [by destruct (a - 1 =? 0)|].
  split; intros ->.
  - destruct p_payout0 as (nm & cr & amt & ? & ? & _ & _ & ->).
    exists nm, cr, amt. do 2 (split; [done|]).
    split; [by rewrite p_log0|]. rewrite p_balance0. lia.
  - subst payout. split; [by rewrite p_log0|]. rewrite p_balance0. lia.
Qed.

(** C8 at the first purchase of the market, on the collection with the
    royalty interface and on the one without. *)
Lemma C8_witness :
  (∃ rest,
     log Scenario.sold_one
     = log Scenario.listed
       ++ [Transfer 7 (creatorAmount (storage Scenario.listed) 15);
           Transfer 8 0;
           Transfer 50 (treasuryAmount (storage Scenario.listed) 15);
           Transfer 60 (nodeAmount (storage Scenario.listed) 15)]
       ++ rest) ∧
  balance Scenario.sold_plain
  = balance Scenario.listed_plain + 15
    - treasuryAmount (storage Scenario.listed_plain) 15
    - nodeAmount (storage Scenario.listed_plain) 15.
Proof.
  split.
  - assert (Hbuy : buyToken Scenario.env (Scenario.buyer 15) 0 0 1 Scenario.listed
                   = Ok (tt, Scenario.sold_one)) by (vm_compute; reflexivity).
    destruct (C8_creator_paid_iff_royalty_interface _ _ _ _ _ _ _ Hbuy)
      as (o & p & hf & rest & Ho & Hp & Hsup & _ & Hyes & _).
    vm_compute in Ho. injection Ho as <-.
    vm_compute in Hp. injection Hp as <-.
    vm_compute in Hsup. injection Hsup as <-.
    destruct (Hyes eq_refl) as (nm & rc & amt & Hnm & Hroy & Hlog & _).
    vm_compute in Hnm. injection Hnm as <-.
    vm_compute in Hroy. injection Hroy as <- <-.
    exists rest. exact Hlog.
  - assert (Hbuy : buyToken Scenario.env (Scenario.buyer 15) 0 0 1 Scenario.listed_plain
                   = Ok (tt, Scenario.sold_plain)) by (vm_compute; reflexivity).
    destruct (C8_creator_paid_iff_royalty_interface _ _ _ _ _ _ _ Hbuy)
      as (o & p & hf & rest & Ho & Hp & Hsup & _ & _ & Hno).
    vm_compute in Ho. injection Ho as <-.
    vm_compute in Hp. injection Hp as <-.
    vm_compute in Hsup. injection Hsup as <-.
    exact (proj2 (Hno eq_refl)).
Defined.





(** ** Further properties of the contract *)

(** *** The reverse index along a history *)

Lemma addresses_insert (cat : list offer) oi o o' :
  zlookup cat oi = Some o -> contractAddress o' = contractAddress o ->
  contractAddress <$> <[Z.to_nat oi := o']> cat = contractAddress <$> cat.
Proof.
  intros [_ Ho]%zlookup_some Ha. rewrite list_fmap_insert, Ha.
  apply list_insert_id. by rewrite list_lookup_fmap, Ho.
Qed.

(** A transaction either keeps the reverse index and the collection of every
    offer, or is a listing: it passed the check of [addOffer], appended one
    offer and pointed the collection's entry to it. *)
Lemma step_reverse_index σ t :
  (_contractToOffer (storage (step σ t)) = _contractToOffer (storage σ) ∧
   contractAddress <$> offerCatalog (storage (step σ t))
   = contractAddress <$> offerCatalog (storage σ)) ∨
  (∃ token o,
     (offerCatalog (storage σ) = [] ∨
      ∃ o0, zlookup (offerCatalog (storage σ)) (contractToOffer_slot (storage σ) token)
            = Some o0 ∧ contractAddress o0 = address_zero) ∧
     contractAddress o = token ∧
     offerCatalog (storage (step σ t)) = offerCatalog (storage σ) ++ [o] ∧
     _contractToOffer (storage (step σ t))
     = <[token := len (offerCatalog (storage σ))]> (_contractToOffer (storage σ))).
Proof.
  unfold step, transact.
  destruct (dispatch (tx_env t) (tx_ctx t) (tx_call t) σ) as [[[] σ']|e] eqn:E;
    cbn [fst]; [|by left].
  destruct (tx_call t) eqn:Hc; cbn [dispatch] in E.
  - apply addOffer_ok in E.
    destruct E as (_ & _ & Hfree & _ & _ & _ & _ & _ & Hcat & _ & Hmap & _).
    right. eexists _, _. split; [exact Hfree|]. split; [|split; [exact Hcat|exact Hmap]].
    reflexivity.
  - apply updateOfferRange_ok in E.
    destruct E as (o & s & e & a & Ho & _ & _ & _ & _ & _ & _ & _ & _ & _ & _ & _ & Hst & _).
    left. rewrite Hst. split; [done|]. cbn. by apply (addresses_insert _ _ o).
  - apply appendOfferRange_ok in E.
    destruct E as (o & Ho & _ & _ & _ & _ & _ & Hst & _).
    left. rewrite Hst. split; [done|]. cbn. by apply (addresses_insert _ _ o).
  - apply appendOfferRangeBatch_ok in E.
    destruct E as (o & Ho & _ & _ & _ & _ & _ & _ & Hcat & _ & Hmap & _).
    left. split; [done|]. rewrite Hcat. by apply (addresses_insert _ _ o).
  - apply buyToken_ok in E.
    destruct E as (o & a & st & en & p & hf & payout & P). purchase_fields P.
    left. rewrite p_storage0. unfold sold_storage.
    destruct (a - 1 =? 0); (split; [done|]); cbn; by apply (addresses_insert _ _ o).
  - unfold setTreasuryAddress, onlyOwner in E. repeat exec_ok E. injection E as <-. by left.
  - unfold setTreasuryFee, onlyOwner in E. repeat exec_ok E. injection E as <-. by left.
  - unfold setNodeFee, onlyOwner in E. repeat exec_ok E. injection E as <-. by left.
Qed.

Lemma offer_address (cat : list offer) i o :
  zlookup cat i = Some o ->
  zlookup (contractAddress <$> cat) i = Some (contractAddress o).
Proof.
  rewrite !zlookup_some. intros [? H]. split; [done|]. by rewrite list_lookup_fmap, H.
Qed.

Lemma address_offer (cat : list offer) i a :
  zlookup (contractAddress <$> cat) i = Some a ->
  ∃ o, zlookup cat i = Some o ∧ contractAddress o = a.
Proof.
  intros [? H]%zlookup_some. rewrite list_lookup_fmap in H.
  destruct (cat !! Z.to_nat i) as [o|] eqn:Ho; [|done]. injection H as <-.
  exists o. split; [|done]. by apply zlookup_some.
Qed.

Lemma slot_lookup s token :
  contractToOffer_slot s token = default 0 (_contractToOffer s !! token).
Proof. reflexivity. Qed.

Lemma step_index_inv σ t : index_inv (storage σ) -> index_inv (storage (step σ t)).
Proof.
  intros (Hsound & Hcompl & Huniq & Hone).
  destruct (step_reverse_index σ t) as [[Hmap Haddr]|(token & o & Hfree & Ho & Hcat & Hmap)].
  { unfold index_inv. rewrite Hmap, Haddr. done. }
  (* no offer is for a collection that passes the check, address zero apart *)
  assert (Hfresh : ∀ i, zlookup (contractAddress <$> offerCatalog (storage σ)) i = Some token ->
                        token = address_zero).
  { intros i Hi. destruct Hfree as [Hnil|(o0 & Ho0 & Hz)].
    - rewrite Hnil in Hi. apply zlookup_bounds in Hi. cbn in Hi. unfold len in Hi. cbn in Hi. lia.
    - destruct (Hcompl i token Hi) as [k Hk].
      rewrite slot_lookup, Hk in Ho0. cbn in Ho0.
      apply offer_address in Ho0. rewrite (Hsound token k Hk) in Ho0.
      injection Ho0 as ->. done. }
  assert (Hlen : len (contractAddress <$> offerCatalog (storage σ)) = len (offerCatalog (storage σ))).
  { unfold len. by rewrite length_fmap. }
  unfold index_inv. rewrite Hmap, Hcat, fmap_app. cbn [fmap list_fmap]. rewrite Ho.
  repeat split.
  - intros tk i Hi. destruct (decide (tk = token)) as [->|Hne].
    + rewrite lookup_insert_eq in Hi. injection Hi as <-.
      rewrite <- Hlen. apply zlookup_app_len.
    + rewrite lookup_insert_ne in Hi by done. apply zlookup_app_l. by apply Hsound.
  - intros i tk Hi. destruct (decide (tk = token)) as [->|Hne].
    + rewrite lookup_insert_eq. eauto.
    + rewrite lookup_insert_ne by done.
      destruct (decide (i = len (contractAddress <$> offerCatalog (storage σ)))) as [->|Hi'].
      * rewrite zlookup_app_len in Hi. by injection Hi as <-.
      * apply (Hcompl i). pose proof (zlookup_bounds _ _ _ Hi) as Hb.
        rewrite len_app in Hb. change (len [token]) with 1 in Hb.
        destruct (zlookup_in_bounds (contractAddress <$> offerCatalog (storage σ)) i) as [x Hx];
          [lia|]. by rewrite (zlookup_app_l _ [token] _ _ Hx) in Hi; injection Hi as <-.
  - intros i j tk Hi Hj Hnz.
    assert (Hcase : ∀ k, zlookup ((contractAddress <$> offerCatalog (storage σ)) ++ [token]) k
                         = Some tk ->
                         zlookup (contractAddress <$> offerCatalog (storage σ)) k = Some tk ∨
                         (k = len (contractAddress <$> offerCatalog (storage σ)) ∧ tk = token)).
    { intros k Hk.
      destruct (decide (k = len (contractAddress <$> offerCatalog (storage σ)))) as [->|Hk'].
      - rewrite zlookup_app_len in Hk. injection Hk as <-. by right.
      - left. pose proof (zlookup_bounds _ _ _ Hk) as Hb.
        rewrite len_app in Hb. change (len [token]) with 1 in Hb.
        destruct (zlookup_in_bounds (contractAddress <$> offerCatalog (storage σ)) k) as [x Hx];
          [lia|]. by rewrite (zlookup_app_l _ [token] _ _ Hx) in Hk; injection Hk as <-. }
    destruct (Hcase i Hi) as [Hi'|[-> ->]], (Hcase j Hj) as [Hj'|[-> Htk]]; subst.
    + by apply (Huniq i j tk).
    + by destruct Hnz; apply (Hfresh i).
    + by destruct Hnz; apply (Hfresh j).
    + done.
  - intros tk H0 Hnz. rewrite length_app. cbn [length].
    destruct (offerCatalog (storage σ)) as [|o0 cat] eqn:Hc; [done|].
    exfalso. cbn in H0. injection H0 as <-.
    pose proof (Hone (contractAddress o0) eq_refl Hnz) as H1.
    destruct Hfree as [?|(o1 & Ho1 & Hz)]; [done|].
    pose proof (zlookup_bounds _ _ _ Ho1) as Hb.
    assert (contractToOffer_slot (storage σ) token = 0) as Hs0.
    { cbn in H1. rewrite length_fmap in H1. unfold len in Hb. cbn [length] in Hb. lia. }
    rewrite Hs0 in Ho1. cbn in Ho1. injection Ho1 as <-. done.
Qed.

Lemma reachable_index_inv σ : reachable σ -> index_inv (storage σ).
Proof.
  revert σ. apply reachable_invariant; [|apply step_index_inv].
  intros. repeat split.
  - intros tk i H. change (_contractToOffer _) with (∅ : gmap Z Z) in H.
    by rewrite lookup_empty in H.
  - intros i tk H. apply zlookup_bounds in H. cbn in H. unfold len in H. cbn in H. lia.
  - intros i j tk H. apply zlookup_bounds in H. cbn in H. unfold len in H. cbn in H. lia.
  - intros tk H. apply zlookup_bounds in H. cbn in H. unfold len in H. cbn in H. lia.
Qed.

Lemma contractToOffer_run token σ :
  contractToOffer token σ
  = if 0 <? len (offerCatalog (storage σ)) then
      match zlookup (offerCatalog (storage σ)) (contractToOffer_slot (storage σ) token) with
      | Some o => if bool_decide (contractAddress o = token)
                  then Ok (contractToOffer_slot (storage σ) token, σ)
                  else Err NoOfferForCollection
      | None => Err PanicIndexOutOfBounds
      end
    else Err NoOfferForCollection.
Proof.
  unfold contractToOffer. rewrite bind_load.
  destruct (0 <? len (offerCatalog (storage σ))); [|reflexivity].
  destruct (zlookup _ _) as [o|] eqn:Ho.
  - rewrite (bind_index_some _ _ _ _ _ Ho). by destruct (bool_decide _).
  - by rewrite (bind_index_none _ _ _ _ Ho).
Qed.

(** X1. In every reachable state [contractToOffer] answers from the reverse
    index alone: for a collection with an entry it returns the stored index
    and leaves the state as it is, and for a collection without an entry it
    fails with [NoOfferForCollection]. Every entry leads to an offer of the
    catalog that is for that collection, and the collection of every offer
    of the catalog has an entry. *)
Theorem X1_contractToOffer_finds_listed σ token :
  reachable σ ->
  contractToOffer token σ
  = match _contractToOffer (storage σ) !! token with
    | Some i => Ok (i, σ)
    | None => Err NoOfferForCollection
    end ∧
  (∀ i, _contractToOffer (storage σ) !! token = Some i ->
        ∃ o, zlookup (offerCatalog (storage σ)) i = Some o ∧ contractAddress o = token) ∧
  (∀ i o, zlookup (offerCatalog (storage σ)) i = Some o ->
          is_Some (_contractToOffer (storage σ) !! contractAddress o)).
Proof.
  intros (Hsound & Hcompl & _ & _)%reachable_index_inv. split; [|split].
  - rewrite contractToOffer_run. rewrite slot_lookup.
    destruct (_contractToOffer (storage σ) !! token) as [i|] eqn:Hi;
      unfold default; cbn [from_option id].
    + destruct (address_offer _ _ _ (Hsound _ _ Hi)) as (o & Ho & Ha).
      pose proof (zlookup_bounds _ _ _ Ho) as Hb.
      destruct (Z.ltb_spec 0 (len (offerCatalog (storage σ)))); [|lia].
      rewrite Ho, bool_decide_eq_true_2 by done. reflexivity.
    + destruct (Z.ltb_spec 0 (len (offerCatalog (storage σ)))); [|reflexivity].
      destruct (zlookup_in_bounds (offerCatalog (storage σ)) 0) as [o Ho]; [lia|].
      rewrite Ho. destruct (bool_decide_reflect (contractAddress o = token)) as [Ha|]; [|done].
      destruct (Hcompl 0 token) as [k Hk]; [|congruence].
      rewrite <- Ha. by apply offer_address.
  - intros i Hi. apply address_offer. by apply Hsound.
  - intros i o Ho. apply (Hcompl i). by apply offer_address.
Qed.

(** X1 for collection 1 after the listing. *)
Lemma X1_witness :
  contractToOffer 1 Scenario.listed
  = match _contractToOffer (storage Scenario.listed) !! 1 with
    | Some i => Ok (i, Scenario.listed)
    | None => Err NoOfferForCollection
    end.
Proof.
  assert (Hreach : reachable Scenario.listed).
  { exists 0, 50, 9000, 1000, 0, [Scenario.listing]. reflexivity. }
  exact (proj1 (X1_contractToOffer_finds_listed Scenario.listed 1 Hreach)).
Defined.



(** X3. Once the first offer of the catalog is for a collection other than
    the zero address, it stays the only offer: in every such reachable state
    the catalog holds that one offer, every call of [addOffer] fails and
    leaves the state as it is, and it fails with [OfferAlreadyExists] when
    the roles are held. *)
Theorem X3_single_offer_cap σ o0 :
  reachable σ ->
  zlookup (offerCatalog (storage σ)) 0 = Some o0 ->
  contractAddress o0 ≠ address_zero ->
  offerCatalog (storage σ) = [o0] ∧
  ∀ env ctx token product starts ends prices names node,
    (∃ e, transact (addOffer env ctx token product starts ends prices names node) σ
          = (σ, Some e)) ∧
    (hasRole env token MINTER (this env) = Some true ->
     hasRole env token CREATOR (sender ctx) = Some true ->
     transact (addOffer env ctx token product starts ends prices names node) σ
     = (σ, Some OfferAlreadyExists)).
Proof.
  intros Hreach Ho Hnz.
  assert (Hcap : ∀ τ, reachable τ -> zlookup (offerCatalog (storage τ)) 0 = Some o0 ->
                      offerCatalog (storage τ) = [o0]).
  { intros τ (_ & _ & _ & Hone)%reachable_index_inv Hτ.
    pose proof (Hone _ (offer_address _ _ _ Hτ) Hnz) as Hl. rewrite length_fmap in Hl.
    destruct (offerCatalog (storage τ)) as [|x [|y l]]; try done.
    cbn in Hτ. by injection Hτ as ->. }
  split; [by apply Hcap|].
  intros env ctx token product starts ends prices names node. split.
  2:{ intros Hm Hc. apply transact_err.
      pose proof (reachable_index_inv _ Hreach) as (Hsound & _).
      destruct (_contractToOffer (storage σ) !! token) as [k|] eqn:Hk.
      - destruct (address_offer _ _ _ (Hsound _ _ Hk)) as (o & Hok & Ha).
        apply (addOffer_slot_taken _ _ _ _ _ _ _ _ _ _ o); try done.
        + by rewrite slot_lookup, Hk.
        + rewrite (Hcap σ Hreach Ho) in Hok.
          pose proof (zlookup_bounds _ _ _ Hok) as Hb. unfold len in Hb. cbn in Hb.
          assert (k = 0) as -> by lia. cbn in Hok. by injection Hok as <-.
      - apply (addOffer_slot_taken _ _ _ _ _ _ _ _ _ _ o0); try done.
        by rewrite slot_lookup, Hk. }
  unfold transact.
  destruct (addOffer env ctx token product starts ends prices names node σ)
    as [[[] σ']|e] eqn:E; [|eauto].
  exfalso.
  assert (Hstep : σ' = step σ (mkTx env ctx (CallAddOffer token product starts ends prices
                                                          names node))).
  { unfold step, transact. cbn [tx_env tx_ctx tx_call dispatch]. by rewrite E. }
  assert (Hreach' : reachable σ').
  { destruct Hreach as (ow & t & tf & nf & funds & txs & ->). rewrite Hstep.
    exists ow, t, tf, nf, funds, (txs ++ [mkTx env ctx (CallAddOffer token product starts ends
                                                        prices names node)]).
    unfold run. by rewrite fold_left_app. }
  apply addOffer_ok in E.
  destruct E as (_ & _ & _ & _ & _ & _ & _ & _ & Hcat & _).
  pose proof (Hcap σ' Hreach') as H1. rewrite Hcat in H1.
  rewrite (Hcap σ Hreach Ho) in H1. specialize (H1 eq_refl). discriminate H1.
Qed.

(** X3 after the listing of collection 1. *)
Lemma X3_witness : offerCatalog (storage Scenario.listed) = [Scenario.listed_offer].
Proof.
  assert (Hreach : reachable Scenario.listed).
  { exists 0, 50, 9000, 1000, 0, [Scenario.listing]. reflexivity. }
  assert (Ho : zlookup (offerCatalog (storage Scenario.listed)) 0 = Some Scenario.listed_offer)
    by (vm_compute; reflexivity).
  assert (Hlive : contractAddress Scenario.listed_offer ≠ address_zero)
    by (vm_compute; discriminate).
  exact (proj1 (X3_single_offer_cap Scenario.listed Scenario.listed_offer Hreach Ho Hlive)).
Defined.

(** *** The views *)

Lemma getOfferInfo_run i σ :
  getOfferInfo i σ
  = match zlookup (offerCatalog (storage σ)) i with
    | Some o => Ok ((contractAddress o, productIndex o, nodeAddress o, len (rangeName o)), σ)
    | None => Err PanicIndexOutOfBounds
    end.
Proof.
  unfold getOfferInfo. rewrite bind_load.
  destruct (zlookup _ _) as [o|] eqn:Ho.
  - by rewrite (bind_index_some _ _ _ _ _ Ho).
  - by rewrite (bind_index_none _ _ _ _ Ho).
Qed.

Lemma getOfferRangeInfo_some oi ri σ o st en a p nm :
  zlookup (offerCatalog (storage σ)) oi = Some o ->
  zlookup (tokenRangeStart o) ri = Some st ->
  zlookup (tokenRangeEnd o) ri = Some en ->
  zlookup (tokensAllowed o) ri = Some a ->
  zlookup (rangePrice o) ri = Some p ->
  zlookup (rangeName o) ri = Some nm ->
  getOfferRangeInfo oi ri σ
  = Ok ((contractAddress o, productIndex o, st, en, a, p, nm), σ).
Proof.
  intros Ho Hs He Ha Hp Hn. unfold getOfferRangeInfo.
  rewrite bind_load, (bind_index_some _ _ _ _ _ Ho), (bind_index_some _ _ _ _ _ Hs),
    (bind_index_some _ _ _ _ _ He), (bind_index_some _ _ _ _ _ Ha),
    (bind_index_some _ _ _ _ _ Hp), (bind_index_some _ _ _ _ _ Hn).
  reflexivity.
Qed.

Lemma getOfferRangeInfo_ok oi ri σ v σ' :
  getOfferRangeInfo oi ri σ = Ok (v, σ') ->
  σ' = σ ∧
  ∃ o st en a p nm,
    zlookup (offerCatalog (storage σ)) oi = Some o ∧
    zlookup (tokenRangeStart o) ri = Some st ∧
    zlookup (tokenRangeEnd o) ri = Some en ∧
    zlookup (tokensAllowed o) ri = Some a ∧
    zlookup (rangePrice o) ri = Some p ∧
    zlookup (rangeName o) ri = Some nm ∧
    v = (contractAddress o, productIndex o, st, en, a, p, nm).
Proof.
  intros H. unfold getOfferRangeInfo in H. repeat exec_ok H.
  injection H as <- <-. split; [done|]. eauto 15.
Qed.

Lemma getOfferRangeInfo_out oi ri σ :
  (∀ o, zlookup (offerCatalog (storage σ)) oi = Some o ->
        wf_offer o ∧ ¬ (0 <= ri < len (rangeName o))) ->
  getOfferRangeInfo oi ri σ = Err PanicIndexOutOfBounds.
Proof.
  intros H. unfold getOfferRangeInfo. rewrite bind_load.
  destruct (zlookup (offerCatalog (storage σ)) oi) as [o|] eqn:Ho.
  - rewrite (bind_index_some _ _ _ _ _ Ho).
    destruct (H o eq_refl) as [(H1 & H2 & H3 & H4) Hout].
    apply bind_index_none. apply zlookup_none. unfold len in *. lia.
  - by rewrite (bind_index_none _ _ _ _ Ho).
Qed.

(** X4. In every reachable state [getOfferRangeInfo] returns a range for
    the range indices below the [availableRanges] that [getOfferInfo]
    reports, and panics with an index out of bounds for the others.
    [getOfferCount] returns the length of the catalog, and from that index
    on both [getOfferInfo] and [getOfferRangeInfo] panic with an index out
    of bounds. *)
Theorem X4_range_view_defined_in_bounds σ oi ri :
  reachable σ ->
  (∀ a p n c, getOfferInfo oi σ = Ok ((a, p, n, c), σ) -> 0 <= ri < c ->
     ∃ st en allowed price name,
       getOfferRangeInfo oi ri σ = Ok ((a, p, st, en, allowed, price, name), σ)) ∧
  ((∀ a p n c, getOfferInfo oi σ = Ok ((a, p, n, c), σ) -> ¬ (0 <= ri < c)) ->
   getOfferRangeInfo oi ri σ = Err PanicIndexOutOfBounds) ∧
  (getOfferCount σ = Ok (len (offerCatalog (storage σ)), σ)) ∧
  (¬ (0 <= oi < len (offerCatalog (storage σ))) ->
   getOfferInfo oi σ = Err PanicIndexOutOfBounds ∧
   getOfferRangeInfo oi ri σ = Err PanicIndexOutOfBounds).
Proof.
  intros Hwf%reachable_wf. repeat split.
  - intros a p n c H Hri. rewrite getOfferInfo_run in H.
    destruct (zlookup (offerCatalog (storage σ)) oi) as [o|] eqn:Ho; [|done].
    injection H as <- <- <- <-.
    pose proof (Forall_zlookup _ _ _ _ Hwf Ho) as Hwo.
    destruct (wf_offer_range o ri Hwo) as (al & st & en & pr & nm & ? & ? & ? & ? & ?).
    { destruct Hwo as (_ & _ & _ & H4). unfold len in *. lia. }
    exists st, en, al, pr, nm. by apply getOfferRangeInfo_some.
  - intros H. apply getOfferRangeInfo_out. intros o Ho.
    split; [by apply (Forall_zlookup _ _ _ _ Hwf Ho)|].
    apply (H (contractAddress o) (productIndex o) (nodeAddress o)).
    by rewrite getOfferInfo_run, Ho.
  - rewrite getOfferInfo_run.
    destruct (zlookup (offerCatalog (storage σ)) oi) as [o|] eqn:Ho; [|done].
    apply zlookup_bounds in Ho. lia.
  - apply getOfferRangeInfo_out. intros o Ho. apply zlookup_bounds in Ho. lia.
Qed.

(** X4 for the one range of the listing. *)
Lemma X4_witness :
  ∃ st en allowed price name,
    getOfferRangeInfo 0 0 Scenario.listed
    = Ok ((1, 0, st, en, allowed, price, name), Scenario.listed).
Proof.
  assert (Hreach : reachable Scenario.listed).
  { exists 0, 50, 9000, 1000, 0, [Scenario.listing]. reflexivity. }
  assert (Hinfo : getOfferInfo 0 Scenario.listed = Ok ((1, 0, 60, 1), Scenario.listed))
    by (vm_compute; reflexivity).
  assert (Hin : 0 <= 0 < 1) by lia.
  exact (proj1 (X4_range_view_defined_in_bounds Scenario.listed 0 0 Hreach) 1 0 60 1 Hinfo Hin).
Defined.

(** X5. After a successful [addOffer] the views show the listing: there is
    one more offer, [contractToOffer] of the collection returns the index of
    the new offer, [getOfferInfo] at that index returns the collection, the
    product, the node and the number of ranges given, and [getOfferRangeInfo]
    returns each range with its bounds, the supply [end - start + 1], its
    price and its name. *)
Theorem X5_listing_round_trip env ctx token product starts ends prices names node σ σ' :
  addOffer env ctx token product starts ends prices names node σ = Ok (tt, σ') ->
  getOfferCount σ' = Ok (len (offerCatalog (storage σ)) + 1, σ') ∧
  contractToOffer token σ' = Ok (len (offerCatalog (storage σ)), σ') ∧
  getOfferInfo (len (offerCatalog (storage σ))) σ'
  = Ok ((token, product, node, len names), σ') ∧
  ∀ k st en p nm,
    starts !! k = Some st -> ends !! k = Some en ->
    prices !! k = Some p -> names !! k = Some nm ->
    getOfferRangeInfo (len (offerCatalog (storage σ))) (Z.of_nat k) σ'
    = Ok ((token, product, st, en, en - st + 1, p, nm), σ').
Proof.
  intros H. apply addOffer_ok in H.
  destruct H as (_ & _ & _ & H1 & H2 & H3 & _ & _ & Hcat & _ & Hmap & _).
  assert (Hnew : zlookup (offerCatalog (storage σ')) (len (offerCatalog (storage σ)))
                 = Some (push_ranges (mkOffer token node product [] [] [] [] [])
                                     starts ends prices names)).
  { rewrite Hcat. apply zlookup_app_len. }
  repeat split.
  - unfold getOfferCount. rewrite bind_load, Hcat, len_app. reflexivity.
  - rewrite contractToOffer_run, slot_lookup, Hmap, lookup_insert_eq.
    unfold default; cbn [from_option id]. rewrite Hnew.
    destruct (Z.ltb_spec 0 (len (offerCatalog (storage σ')))) as [_|Hl].
    + cbn [contractAddress push_ranges]. by rewrite bool_decide_eq_true_2.
    + apply zlookup_bounds in Hnew. lia.
  - rewrite getOfferInfo_run, Hnew. reflexivity.
  - intros k st en p nm Hs He Hp Hn.
    apply (getOfferRangeInfo_some _ _ _ _ _ _ _ _ _ Hnew); cbn [push_ranges tokenRangeStart
      tokenRangeEnd tokensAllowed rangePrice rangeName app].
    + apply zlookup_some. rewrite Nat2Z.id. split; [lia|done].
    + apply zlookup_some. rewrite Nat2Z.id. split; [lia|done].
    + apply zlookup_some. rewrite Nat2Z.id. split; [lia|].
      rewrite lookup_zip_with, Hs. cbn. by rewrite He.
    + apply zlookup_some. rewrite Nat2Z.id. split; [lia|done].
    + apply zlookup_some. rewrite Nat2Z.id. split; [lia|done].
Qed.

(** X5 for the listing. *)
Lemma X5_witness :
  contractToOffer 1 Scenario.listed
  = Ok (len (offerCatalog (storage Scenario.start)), Scenario.listed).
Proof.
  assert (Hlist : addOffer Scenario.env Scenario.creator 1 0 [1] [3] [15] ["a"%string] 60
                    Scenario.start = Ok (tt, Scenario.listed)) by (vm_compute; reflexivity).
  exact (proj1 (proj2 (X5_listing_round_trip _ _ _ _ _ _ _ _ _ _ _ Hlist))).
Defined.

Lemma view_frame σ σ' oi ri o o' :
  zlookup (offerCatalog (storage σ)) oi = Some o ->
  offerCatalog (storage σ') = <[Z.to_nat oi := o']> (offerCatalog (storage σ)) ->
  ranges_kept ri o o' ->
  ∀ oj rj v, (oj, rj) ≠ (oi, ri) ->
    getOfferRangeInfo oj rj σ = Ok (v, σ) -> getOfferRangeInfo oj rj σ' = Ok (v, σ').
Proof.
  intros Ho Hcat (Ha & Hp & Hk) oj rj v Hne H.
  apply getOfferRangeInfo_ok in H.
  destruct H as (_ & o1 & st & en & a & p & nm & Ho1 & Hs & He & Hal & Hpr & Hn & ->).
  destruct (decide (oj = oi)) as [->|Hoj].
  - rewrite Ho in Ho1. injection Ho1 as <-.
    assert (rj ≠ ri) as Hr by congruence.
    destruct (Hk rj Hr) as (K1 & K2 & K3 & K4 & K5).
    rewrite <- Ha, <- Hp. apply getOfferRangeInfo_some; auto.
    rewrite Hcat. by apply (zlookup_insert_eq _ _ o).
  - apply getOfferRangeInfo_some; auto.
    rewrite Hcat, zlookup_insert_ne; [done| |done].
    apply zlookup_bounds in Ho. lia.
Qed.

Lemma ranges_kept_push o st en p nm ri : ranges_kept ri o (push_range o st en p nm).
Proof.
  repeat split; intros x Hx; by apply zlookup_app_l.
Qed.

Lemma ranges_kept_update o ri st en a p nm :
  0 <= ri -> ranges_kept ri o (update_range o ri st en a p nm).
Proof.
  intros H0. repeat split; intros x Hx; cbn; by rewrite zlookup_insert_ne.
Qed.

Lemma ranges_kept_sold o ri a :
  0 <= ri -> ranges_kept ri o (with_allowed o ri a).
Proof.
  intros H0. repeat split; intros x Hx; cbn; try done; by rewrite zlookup_insert_ne.
Qed.

(** X6. After a successful [appendOfferRange] on a reachable state the
    offer has one more range: [getOfferInfo] reports [availableRanges + 1],
    [getOfferRangeInfo] at the former [availableRanges], which panicked
    before, returns the new range with the supply [end - start + 1], and
    every range that could be read before reads the same. *)
Theorem X6_append_round_trip env ctx oi st en p nm σ σ' :
  reachable σ ->
  appendOfferRange env ctx oi st en p nm σ = Ok (tt, σ') ->
  ∃ a pr nd c,
    getOfferInfo oi σ = Ok ((a, pr, nd, c), σ) ∧
    getOfferInfo oi σ' = Ok ((a, pr, nd, c + 1), σ') ∧
    getOfferRangeInfo oi c σ = Err PanicIndexOutOfBounds ∧
    getOfferRangeInfo oi c σ' = Ok ((a, pr, st, en, en - st + 1, p, nm), σ') ∧
    ∀ oj rj v, getOfferRangeInfo oj rj σ = Ok (v, σ) ->
               getOfferRangeInfo oj rj σ' = Ok (v, σ').
Proof.
  intros Hwf%reachable_wf H. apply appendOfferRange_ok in H.
  destruct H as (o & Ho & _ & _ & _ & _ & _ & Hst & _).
  pose proof (Forall_zlookup _ _ _ _ Hwf Ho) as (W1 & W2 & W3 & W4).
  assert (Hcat : offerCatalog (storage σ')
                 = <[Z.to_nat oi := push_range o st en p nm]> (offerCatalog (storage σ)))
    by (by rewrite Hst).
  assert (Hnew : zlookup (offerCatalog (storage σ')) oi = Some (push_range o st en p nm)).
  { rewrite Hcat. by apply (zlookup_insert_eq _ _ o). }
  exists (contractAddress o), (productIndex o), (nodeAddress o), (len (rangeName o)).
  split; [by rewrite getOfferInfo_run, Ho|].
  split; [by rewrite getOfferInfo_run, Hnew; cbn; rewrite len_app|].
  split.
  { apply getOfferRangeInfo_out. intros o1 Ho1. rewrite Ho in Ho1. injection Ho1 as <-.
    split; [done|lia]. }
  split.
  { apply (getOfferRangeInfo_some _ _ _ _ _ _ _ _ _ Hnew); cbn.
    - replace (len (rangeName o)) with (len (tokenRangeStart o)) by (unfold len; lia).
      apply zlookup_app_len.
    - replace (len (rangeName o)) with (len (tokenRangeEnd o)) by (unfold len; lia).
      apply zlookup_app_len.
    - replace (len (rangeName o)) with (len (tokensAllowed o)) by (unfold len; lia).
      apply zlookup_app_len.
    - replace (len (rangeName o)) with (len (rangePrice o)) by (unfold len; lia).
      apply zlookup_app_len.
    - apply zlookup_app_len. }
  intros oj rj v Hv.
  apply (view_frame σ σ' oi (-1) o _ Ho Hcat (ranges_kept_push _ _ _ _ _ _)); [|done].
  intros [= -> ->]. apply getOfferRangeInfo_ok in Hv.
  destruct Hv as (_ & ? & ? & ? & ? & ? & ? & _ & Hb & _). apply zlookup_bounds in Hb. lia.
Qed.

(** X6 when the creator appends tokens 5 to 9. *)
Lemma X6_witness :
  ∃ a pr c,
    getOfferRangeInfo 0 c Trades.appended
    = Ok ((a, pr, 5, 9, 9 - 5 + 1, 20, "b"%string), Trades.appended).
Proof.
  assert (Hreach : reachable Scenario.listed).
  { exists 0, 50, 9000, 1000, 0, [Scenario.listing]. reflexivity. }
  assert (Happ : appendOfferRange Scenario.env Scenario.creator 0 5 9 20 "b" Scenario.listed
                 = Ok (tt, Trades.appended)) by (vm_compute; reflexivity).
  destruct (X6_append_round_trip _ _ _ _ _ _ _ _ _ Hreach Happ)
    as (a & pr & nd & c & _ & _ & _ & H & _).
  exists a, pr, c. exact H.
Defined.

(** X7. After a successful [updateOfferRange] the range read before with
    bounds [oldStart], [oldEnd] and supply [allowed] reads with the new
    bounds, price and name and the supply
    [allowed - ((oldEnd - oldStart) - (end - start))]; every other range
    reads as before and so does [getOfferInfo] at every index. *)
Theorem X7_update_round_trip env ctx oi ri st en p nm σ σ' :
  updateOfferRange env ctx oi ri st en p nm σ = Ok (tt, σ') ->
  ∃ a pr oldStart oldEnd allowed oldPrice oldName,
    getOfferRangeInfo oi ri σ
    = Ok ((a, pr, oldStart, oldEnd, allowed, oldPrice, oldName), σ) ∧
    getOfferRangeInfo oi ri σ'
    = Ok ((a, pr, st, en, allowed - ((oldEnd - oldStart) - (en - st)), p, nm), σ') ∧
    (∀ oj rj v, (oj, rj) ≠ (oi, ri) ->
       getOfferRangeInfo oj rj σ = Ok (v, σ) -> getOfferRangeInfo oj rj σ' = Ok (v, σ')) ∧
    (∀ oj, getOfferInfo oj σ' = match getOfferInfo oj σ with
                                | Ok (v, _) => Ok (v, σ')
                                | Err e => Err e
                                end).
Proof.
  intros H. apply updateOfferRange_ok in H.
  destruct H as (o & s0 & e0 & a0 & Ho & Hs & He & Ha & _ & _ & _ & _ & _ & _
                 & [p0 Hp] & [n0 Hn] & Hst & _).
  assert (Hcat : offerCatalog (storage σ')
                 = <[Z.to_nat oi := update_range o ri st en
                       (a0 - ((e0 - s0) - (en - st))) p nm]> (offerCatalog (storage σ)))
    by (by rewrite Hst).
  pose proof (zlookup_bounds _ _ _ Ha) as Hri.
  exists (contractAddress o), (productIndex o), s0, e0, a0, p0, n0.
  split; [by apply getOfferRangeInfo_some|]. split; [|split].
  - apply (getOfferRangeInfo_some _ _ _ (update_range o ri st en
                                           (a0 - ((e0 - s0) - (en - st))) p nm)); cbn.
    + rewrite Hcat. by apply (zlookup_insert_eq _ _ o).
    + by apply (zlookup_insert_eq _ _ s0).
    + by apply (zlookup_insert_eq _ _ e0).
    + by apply (zlookup_insert_eq _ _ a0).
    + by apply (zlookup_insert_eq _ _ p0).
    + by apply (zlookup_insert_eq _ _ n0).
  - apply (view_frame σ σ' oi ri o _ Ho Hcat). apply ranges_kept_update. lia.
  - intros oj. rewrite !getOfferInfo_run, Hcat.
    destruct (decide (oj = oi)) as [->|Hne].
    + rewrite Ho, (zlookup_insert_eq _ _ o _ Ho). cbn. by rewrite len_insert.
    + rewrite zlookup_insert_ne; [|apply zlookup_bounds in Ho; lia|done].
      by destruct (zlookup (offerCatalog (storage σ)) oj).
Qed.

(** X7 when the creator shrinks the range to tokens 2 to 3. *)
Lemma X7_witness :
  ∃ a pr oldStart oldEnd allowed,
    getOfferRangeInfo 0 0 Trades.shrunk
    = Ok ((a, pr, 2, 3, allowed - ((oldEnd - oldStart) - (3 - 2)), 15, "a"%string),
          Trades.shrunk).
Proof.
  assert (Hupd : updateOfferRange Scenario.env Scenario.creator 0 0 2 3 15 "a" Scenario.listed
                 = Ok (tt, Trades.shrunk)) by (vm_compute; reflexivity).
  destruct (X7_update_round_trip _ _ _ _ _ _ _ _ _ _ Hupd)
    as (a & pr & s0 & e0 & al & p0 & n0 & _ & H & _).
  exists a, pr, s0, e0, al. exact H.
Defined.

(** X8. After a successful [buyToken] on a reachable state the range
    bought from reads as before with one token less; every other range,
    [getOfferInfo] at every index and the reverse index are as before. *)
Theorem X8_purchase_round_trip env ctx ci ri tok σ σ' :
  reachable σ ->
  buyToken env ctx ci ri tok σ = Ok (tt, σ') ->
  ∃ a pr st en allowed price name,
    getOfferRangeInfo ci ri σ = Ok ((a, pr, st, en, allowed, price, name), σ) ∧
    getOfferRangeInfo ci ri σ' = Ok ((a, pr, st, en, allowed - 1, price, name), σ') ∧
    (∀ oj rj v, (oj, rj) ≠ (ci, ri) ->
       getOfferRangeInfo oj rj σ = Ok (v, σ) -> getOfferRangeInfo oj rj σ' = Ok (v, σ')) ∧
    (∀ oj, getOfferInfo oj σ' = match getOfferInfo oj σ with
                                | Ok (v, _) => Ok (v, σ')
                                | Err e => Err e
                                end) ∧
    _contractToOffer (storage σ') = _contractToOffer (storage σ).
Proof.
  intros Hwf%reachable_wf H. apply buyToken_ok in H.
  destruct H as (o & a & st & en & p & hf & payout & P). purchase_fields P.
  pose proof (Forall_zlookup _ _ _ _ Hwf p_offer0) as Hwo.
  pose proof (zlookup_bounds _ _ _ p_allowed0) as Hri.
  destruct (wf_offer_range o ri Hwo Hri) as (? & ? & ? & ? & nm & _ & _ & _ & _ & Hn).
  assert (Hcat : offerCatalog (storage σ')
                 = <[Z.to_nat ci := with_allowed o ri (a - 1)]> (offerCatalog (storage σ))).
  { rewrite p_storage0. apply sold_storage_catalog. }
  exists (contractAddress o), (productIndex o), st, en, a, p, nm.
  split; [by apply getOfferRangeInfo_some|]. split; [|split; [|split]].
  - apply (getOfferRangeInfo_some _ _ _ (with_allowed o ri (a - 1))); cbn; try done.
    + rewrite Hcat. by apply (zlookup_insert_eq _ _ o).
    + by apply (zlookup_insert_eq _ _ a).
  - apply (view_frame σ σ' ci ri o _ p_offer0 Hcat). apply ranges_kept_sold. lia.
  - intros oj. rewrite !getOfferInfo_run, Hcat.
    destruct (decide (oj = ci)) as [->|Hne].
    + by rewrite p_offer0, (zlookup_insert_eq _ _ o _ p_offer0).
    + rewrite zlookup_insert_ne; [|apply zlookup_bounds in p_offer0; lia|done].
      by destruct (zlookup (offerCatalog (storage σ)) oj).
  - rewrite p_storage0. unfold sold_storage. by destruct (a - 1 =? 0).
Qed.

(** X8 for the first purchase. *)
Lemma X8_witness :
  ∃ a pr st en allowed price name,
    getOfferRangeInfo 0 0 Scenario.listed
    = Ok ((a, pr, st, en, allowed, price, name), Scenario.listed) ∧
    getOfferRangeInfo 0 0 Scenario.sold_one
    = Ok ((a, pr, st, en, allowed - 1, price, name), Scenario.sold_one).
Proof.
  assert (Hreach : reachable Scenario.listed).
  { exists 0, 50, 9000, 1000, 0, [Scenario.listing]. reflexivity. }
  assert (Hbuy : buyToken Scenario.env (Scenario.buyer 15) 0 0 1 Scenario.listed
                 = Ok (tt, Scenario.sold_one)) by (vm_compute; reflexivity).
  destruct (X8_purchase_round_trip _ _ _ _ _ _ _ Hreach Hbuy)
    as (a & pr & st & en & al & p & nm & H1 & H2 & _).
  exists a, pr, st, en, al, p, nm. split; [exact H1 | exact H2].
Defined.

(** *** Errors and edges *)

Lemma validateRoles_cases env ctx a σ :
  validateRoles env ctx a σ
  = match hasRole env a MINTER (this env) with
    | None => Err CollaboratorReverted
    | Some false => Err NotAuthorizedAsMinter
    | Some true =>
        match hasRole env a CREATOR (sender ctx) with
        | None => Err CollaboratorReverted
        | Some false => Err NotAuthorizedAsCreator
        | Some true => Ok (true, σ)
        end
    end.
Proof.
  unfold validateRoles.
  destruct (hasRole env a MINTER (this env)) as [[]|]; try reflexivity.
  cbn. destruct (hasRole env a CREATOR (sender ctx)) as [[]|]; reflexivity.
Qed.

Lemma bind_validateRoles_err {B} env ctx a (k : bool -> M B) σ e :
  validateRoles env ctx a σ = Err e -> bind (validateRoles env ctx a) k σ = Err e.
Proof. apply bind_err. Qed.

(** X9. A call of [addOffer], [updateOfferRange], [appendOfferRange] or
    [appendOfferRangeBatch] that goes through was made while the collection
    reported the marketplace as minter and the sender as creator, that is
    while [validateRoles] returned [true]; the collection is the one given
    to [addOffer], and the one of the addressed offer for the three
    others. *)
Theorem X9_listing_calls_are_gated env ctx c σ σ' :
  is_listing_call c = true ->
  dispatch env ctx c σ = Ok (tt, σ') ->
  ∃ collection,
    gated_collection (storage σ) c = Some collection ∧
    hasRole env collection MINTER (this env) = Some true ∧
    hasRole env collection CREATOR (sender ctx) = Some true ∧
    validateRoles env ctx collection σ = Ok (true, σ).
Proof.
  intros Hl H.
  assert (Hv : ∀ a, hasRole env a MINTER (this env) = Some true ->
                    hasRole env a CREATOR (sender ctx) = Some true ->
                    validateRoles env ctx a σ = Ok (true, σ)).
  { intros a Hm Hc. by rewrite validateRoles_cases, Hm, Hc. }
  destruct c; try done; cbn [dispatch] in H; cbn [gated_collection].
  - apply addOffer_ok in H. destruct H as (Hm & Hc & _). eauto 10.
  - apply updateOfferRange_ok in H.
    destruct H as (o & ? & ? & ? & Ho & _ & _ & _ & _ & _ & _ & Hm & Hc & _).
    exists (contractAddress o). rewrite Ho. eauto.
  - apply appendOfferRange_ok in H. destruct H as (o & Ho & Hm & Hc & _).
    exists (contractAddress o). rewrite Ho. eauto.
  - apply appendOfferRangeBatch_ok in H. destruct H as (o & Ho & Hm & Hc & _).
    exists (contractAddress o). rewrite Ho. eauto.
Qed.

(** X9 for the listing. *)
Lemma X9_witness :
  ∃ collection,
    gated_collection (storage Scenario.start) (CallAddOffer 1 0 [1] [3] [15] ["a"%string] 60)
    = Some collection ∧
    hasRole Scenario.env collection MINTER (this Scenario.env) = Some true ∧
    hasRole Scenario.env collection CREATOR (sender Scenario.creator) = Some true ∧
    validateRoles Scenario.env Scenario.creator collection Scenario.start
    = Ok (true, Scenario.start).
Proof.
  assert (Hc : is_listing_call (CallAddOffer 1 0 [1] [3] [15] ["a"%string] 60) = true)
    by reflexivity.
  assert (Hrun : dispatch Scenario.env Scenario.creator
                   (CallAddOffer 1 0 [1] [3] [15] ["a"%string] 60) Scenario.start
                 = Ok (tt, Scenario.listed)) by (vm_compute; reflexivity).
  exact (X9_listing_calls_are_gated _ _ _ _ _ Hc Hrun).
Defined.

(** X10. [addOffer] checks in this order: the marketplace is a minter of
    the collection ([NotAuthorizedAsMinter]); the sender is its creator
    ([NotAuthorizedAsCreator]); the offer at the index the reverse index
    gives for the collection has the zero address, unless the catalog is
    empty ([OfferAlreadyExists]); the four arrays have the same length
    ([RangeLengthMismatch]); the product has tokens left to mint
    ([NoMintableSupply]). *)
Theorem X10_addOffer_checks_in_order env ctx token product starts ends prices names node σ :
  let call := addOffer env ctx token product starts ends prices names node in
  let taken :=
    ∃ o, zlookup (offerCatalog (storage σ)) (contractToOffer_slot (storage σ) token) = Some o ∧
         contractAddress o ≠ address_zero in
  let free :=
    offerCatalog (storage σ) = [] ∨
    ∃ o, zlookup (offerCatalog (storage σ)) (contractToOffer_slot (storage σ) token) = Some o ∧
         contractAddress o = address_zero in
  let matched :=
    length starts = length ends ∧ length prices = length starts ∧
    length names = length prices in
  (hasRole env token MINTER (this env) = Some false -> call σ = Err NotAuthorizedAsMinter) ∧
  (hasRole env token MINTER (this env) = Some true ->
   hasRole env token CREATOR (sender ctx) = Some false ->
   call σ = Err NotAuthorizedAsCreator) ∧
  (hasRole env token MINTER (this env) = Some true ->
   hasRole env token CREATOR (sender ctx) = Some true ->
   (taken -> call σ = Err OfferAlreadyExists) ∧
   (free -> ¬ matched -> call σ = Err RangeLengthMismatch) ∧
   (free -> matched ->
    ∀ m, getCollection_mintableTokensLeft env token product = Some m -> m <= 0 ->
         call σ = Err NoMintableSupply)).
Proof.
  intros call taken free matched. unfold call. split; [|split].
  - intros Hm. unfold addOffer. apply bind_err. by rewrite validateRoles_cases, Hm.
  - intros Hm Hc. unfold addOffer. apply bind_err. by rewrite validateRoles_cases, Hm, Hc.
  - intros Hm Hc.
    assert (Hcheck : free -> ∀ (k : unit -> M unit),
               bind (if negb (len (offerCatalog (storage σ)) =? 0)
                     then let* o := index (offerCatalog (storage σ))
                                          (contractToOffer_slot (storage σ) token) in
                          require (bool_decide (contractAddress o = address_zero))
                                  OfferAlreadyExists
                     else ret tt) k σ = k tt σ).
    { intros Hfree k. destruct Hfree as [Hnil|(o & Ho & Hz)].
      - rewrite Hnil. reflexivity.
      - destruct (negb (len (offerCatalog (storage σ)) =? 0)); [|reflexivity].
        rewrite bind_assoc, (bind_index_some _ _ _ _ _ Ho).
        apply bind_require_true. by apply bool_decide_eq_true. }
    split; [|split].
    + intros (o & Ho & Hnz). by apply (addOffer_slot_taken _ _ _ _ _ _ _ _ _ _ o).
    + intros Hfree Hnot. unfold addOffer.
      rewrite (validateRoles_run _ _ _ _ _ Hm Hc), bind_load, (Hcheck Hfree).
      apply bind_require_false. apply not_true_is_false. intros Hb. apply Hnot.
      apply andb_true_iff in Hb as [Hb H3]. apply andb_true_iff in Hb as [H1 H2].
      apply len_eq in H1, H2, H3. done.
    + intros Hfree (H1 & H2 & H3) m Hget Hle. unfold addOffer.
      rewrite (validateRoles_run _ _ _ _ _ Hm Hc), bind_load, (Hcheck Hfree).
      rewrite bind_require_true.
      2:{ apply andb_true_iff; split; [apply andb_true_iff; split|];
          apply Z.eqb_eq; unfold len; lia. }
      rewrite (bind_external_some _ _ _ _ Hget).
      apply bind_require_false. by apply Z.ltb_ge.
Qed.

(** X10 for a collection that has not made the marketplace a minter. *)
Lemma X10_witness :
  addOffer Trades.strict Scenario.creator 1 0 [1] [3] [15] ["a"%string] 60 Scenario.start
  = Err NotAuthorizedAsMinter.
Proof.
  assert (Hm : hasRole Trades.strict 1 MINTER (this Trades.strict) = Some false)
    by reflexivity.
  exact (proj1 (X10_addOffer_checks_in_order Trades.strict Scenario.creator 1 0 [1] [3] [15]
                  ["a"%string] 60 Scenario.start) Hm).
Defined.

(** X11. [addOffer] with four empty arrays goes through when the roles
    are held, the offer the reverse index gives for the collection has the
    zero address or the catalog is empty, the product has tokens left to
    mint and the catalog has room: it appends an offer with no range,
    leaves [openSales] as it is and emits [AddedOffer] with 0 ranges and
    nothing else. *)
Theorem X11_empty_listing env ctx token product node σ :
  hasRole env token MINTER (this env) = Some true ->
  hasRole env token CREATOR (sender ctx) = Some true ->
  (offerCatalog (storage σ) = [] ∨
   ∃ o, zlookup (offerCatalog (storage σ)) (contractToOffer_slot (storage σ) token) = Some o ∧
        contractAddress o = address_zero) ->
  (∃ m, getCollection_mintableTokensLeft env token product = Some m ∧ 0 < m) ->
  len (offerCatalog (storage σ)) < uint256_max ->
  ∃ σ',
    addOffer env ctx token product [] [] [] [] node σ = Ok (tt, σ') ∧
    offerCatalog (storage σ')
    = offerCatalog (storage σ) ++ [mkOffer token node product [] [] [] [] []] ∧
    openSales (storage σ') = openSales (storage σ) ∧
    log σ' = log σ ++ [Emit (AddedOffer token product 0 (len (offerCatalog (storage σ))))].
Proof.
  intros Hm Hc Hfree (m & Hget & Hpos) Hlen.
  eexists. split.
  - unfold addOffer.
    rewrite (validateRoles_run _ _ _ _ _ Hm Hc), bind_load.
    assert (Hcheck : ∀ (k : unit -> M unit),
               bind (if negb (len (offerCatalog (storage σ)) =? 0)
                     then let* o := index (offerCatalog (storage σ))
                                          (contractToOffer_slot (storage σ) token) in
                          require (bool_decide (contractAddress o = address_zero))
                                  OfferAlreadyExists
                     else ret tt) k σ = k tt σ).
    { intros k. destruct Hfree as [Hnil|(o & Ho & Hz)].
      - rewrite Hnil. reflexivity.
      - destruct (negb (len (offerCatalog (storage σ)) =? 0)); [|reflexivity].
        rewrite bind_assoc, (bind_index_some _ _ _ _ _ Ho).
        apply bind_require_true. by apply bool_decide_eq_true. }
    rewrite Hcheck. rewrite bind_require_true by reflexivity.
    rewrite (bind_external_some _ _ _ _ Hget).
    rewrite bind_require_true by (by apply Z.ltb_lt).
    rewrite bind_store. cbn [length for_range]. rewrite bind_ret, bind_load.
    cbn [storage offerCatalog set_offerCatalog].
    rewrite len_app. change (len [_]) with 1.
    rewrite bind_checked_in by (unfold len in *; lia).
    rewrite bind_store. reflexivity.
  - cbn. replace (len (offerCatalog (storage σ)) + 1 - 1) with (len (offerCatalog (storage σ)))
      by lia.
    done.
Qed.

(** X11 on the empty catalog. *)
Lemma X11_witness :
  ∃ σ',
    addOffer Scenario.env Scenario.creator 1 0 [] [] [] [] 60 Scenario.start = Ok (tt, σ') ∧
    openSales (storage σ') = openSales (storage Scenario.start).
Proof.
  assert (Hm : hasRole Scenario.env 1 MINTER (this Scenario.env) = Some true) by reflexivity.
  assert (Hc : hasRole Scenario.env 1 CREATOR (sender Scenario.creator) = Some true)
    by reflexivity.
  assert (Hfree : offerCatalog (storage Scenario.start) = [] ∨
            ∃ o, zlookup (offerCatalog (storage Scenario.start))
                         (contractToOffer_slot (storage Scenario.start) 1) = Some o ∧
                 contractAddress o = address_zero) by (left; reflexivity).
  assert (Hleft : ∃ m, getCollection_mintableTokensLeft Scenario.env 1 0 = Some m ∧ 0 < m)
    by (exists 10; split; [reflexivity | lia]).
  assert (Hroom : len (offerCatalog (storage Scenario.start)) < uint256_max)
    by (vm_compute; reflexivity).
  destruct (X11_empty_listing Scenario.env Scenario.creator 1 0 60 Scenario.start
              Hm Hc Hfree Hleft Hroom) as (σ' & H & _ & Hopen & _).
  exists σ'. split; [exact H | exact Hopen].
Defined.

(** X12. [appendOfferRangeBatch] compares the lengths of its arrays
    before anything else: when they differ it fails with
    [RangeLengthMismatch] whatever the offer index, and the state is as
    before. With four empty arrays, on an existing offer whose roles are
    held, it goes through and changes nothing. *)
Theorem X12_batch_lengths_first env ctx oi starts ends prices names σ :
  (¬ (length starts = length ends ∧ length prices = length starts ∧
      length names = length prices) ->
   transact (appendOfferRangeBatch env ctx oi starts ends prices names) σ
   = (σ, Some RangeLengthMismatch)) ∧
  (∀ o, zlookup (offerCatalog (storage σ)) oi = Some o ->
        hasRole env (contractAddress o) MINTER (this env) = Some true ->
        hasRole env (contractAddress o) CREATOR (sender ctx) = Some true ->
        appendOfferRangeBatch env ctx oi [] [] [] [] σ = Ok (tt, σ)).
Proof.
  split.
  - intros Hnot. apply transact_err. unfold appendOfferRangeBatch.
    apply bind_require_false. apply not_true_is_false. intros Hb. apply Hnot.
    apply andb_true_iff in Hb as [Hb H3]. apply andb_true_iff in Hb as [H1 H2].
    apply len_eq in H1, H2, H3. done.
  - intros o Ho Hm Hc. unfold appendOfferRangeBatch.
    rewrite bind_require_true by reflexivity.
    rewrite bind_load, (bind_index_some _ _ _ _ _ Ho).
    rewrite (validateRoles_run _ _ _ _ _ Hm Hc). reflexivity.
Qed.

(** X12 with no end token. *)
Lemma X12_witness :
  transact (appendOfferRangeBatch Scenario.env Scenario.creator 0 [5] [] [20] ["b"%string])
           Scenario.listed
  = (Scenario.listed, Some RangeLengthMismatch).
Proof.
  assert (Hbad : ¬ (length [5] = length (@nil Z) ∧ length [20] = length [5] ∧
                    length ["b"%string] = length [20]))
    by (intros [H _]; discriminate H).
  exact (proj1 (X12_batch_lengths_first Scenario.env Scenario.creator 0 [5] [] [20]
                  ["b"%string] Scenario.listed) Hbad).
Defined.

(** X13. With an offer index that is not in the catalog [buyToken],
    [updateOfferRange], [appendOfferRange], [appendOfferRangeBatch] (given
    arrays of the same length), [getOfferInfo] and [getOfferRangeInfo] all
    panic with an index out of bounds. *)
Theorem X13_offer_index_out_of_bounds env ctx oi σ :
  zlookup (offerCatalog (storage σ)) oi = None ->
  (∀ ri tok, buyToken env ctx oi ri tok σ = Err PanicIndexOutOfBounds) ∧
  (∀ ri st en p nm,
     updateOfferRange env ctx oi ri st en p nm σ = Err PanicIndexOutOfBounds) ∧
  (∀ st en p nm, appendOfferRange env ctx oi st en p nm σ = Err PanicIndexOutOfBounds) ∧
  (∀ starts ends prices names,
     length starts = length ends -> length prices = length starts ->
     length names = length prices ->
     appendOfferRangeBatch env ctx oi starts ends prices names σ
     = Err PanicIndexOutOfBounds) ∧
  getOfferInfo oi σ = Err PanicIndexOutOfBounds ∧
  (∀ ri, getOfferRangeInfo oi ri σ = Err PanicIndexOutOfBounds).
Proof.
  intros Hnone. repeat split.
  - intros ri tok. unfold buyToken. rewrite bind_receive_value, bind_load. cbn [storage].
    by apply bind_index_none.
  - intros. unfold updateOfferRange. rewrite bind_load. by apply bind_index_none.
  - intros. unfold appendOfferRange. rewrite bind_load. by apply bind_index_none.
  - intros starts ends prices names H1 H2 H3. unfold appendOfferRangeBatch.
    rewrite bind_require_true.
    2:{ apply andb_true_iff; split; [apply andb_true_iff; split|];
        apply Z.eqb_eq; unfold len; lia. }
    rewrite bind_load. by apply bind_index_none.
  - by rewrite getOfferInfo_run, Hnone.
  - intros ri. unfold getOfferRangeInfo. rewrite bind_load. by apply bind_index_none.
Qed.

(** X13 on the empty catalog. *)
Lemma X13_witness : getOfferInfo 0 Scenario.start = Err PanicIndexOutOfBounds.
Proof.
  assert (Hnone : zlookup (offerCatalog (storage Scenario.start)) 0 = None) by reflexivity.
  exact (proj1 (proj2 (proj2 (proj2 (proj2
           (X13_offer_index_out_of_bounds Scenario.env Scenario.creator 0 Scenario.start
              Hnone)))))).
Defined.

(** X14. [updateOfferRange] on an existing range, with bounds within the
    old ones and in order and with the roles held, panics with an arithmetic
    error and leaves the state as it is when the range would shrink by more
    tokens than it has left. *)
Theorem X14_update_beyond_supply_panics env ctx oi ri st en p nm σ o oldStart oldEnd allowed :
  zlookup (offerCatalog (storage σ)) oi = Some o ->
  zlookup (tokenRangeStart o) ri = Some oldStart ->
  zlookup (tokenRangeEnd o) ri = Some oldEnd ->
  zlookup (tokensAllowed o) ri = Some allowed ->
  0 <= oldStart -> oldEnd <= uint256_max ->
  en <= oldEnd -> oldStart <= st -> st < en ->
  hasRole env (contractAddress o) MINTER (this env) = Some true ->
  hasRole env (contractAddress o) CREATOR (sender ctx) = Some true ->
  allowed < (oldEnd - oldStart) - (en - st) ->
  transact (updateOfferRange env ctx oi ri st en p nm) σ = (σ, Some PanicArithmetic).
Proof.
  intros Ho Hs He Ha H0 Hmax Hen Hst Hlt Hm Hc Hd. apply transact_err.
  unfold updateOfferRange.
  rewrite bind_load, (bind_index_some _ _ _ _ _ Ho), (bind_index_some _ _ _ _ _ He).
  destruct (Z.leb_spec en oldEnd); [|lia].
  rewrite bind_assoc, (bind_index_some _ _ _ _ _ Hs).
  rewrite bind_require_true by (by apply Z.leb_le).
  rewrite (validateRoles_run _ _ _ _ _ Hm Hc).
  unfold _validateRangeInfo. rewrite bind_require_true by (by apply Z.ltb_lt).
  rewrite (bind_index_some _ _ _ _ _ Ha), (bind_index_some _ _ _ _ _ He),
    (bind_index_some _ _ _ _ _ Hs).
  rewrite !bind_checked_in by lia.
  apply bind_checked_out. lia.
Qed.

(** X14 when the range is sold out and the creator shrinks it by one token. *)
Lemma X14_witness :
  transact (updateOfferRange Scenario.env Scenario.creator 0 0 1 2 15 "a") Scenario.drained
  = (Scenario.drained, Some PanicArithmetic).
Proof.
  assert (Ho : zlookup (offerCatalog (storage Scenario.drained)) 0
               = Some Scenario.drained_offer) by (vm_compute; reflexivity).
  assert (Hs : zlookup (tokenRangeStart Scenario.drained_offer) 0 = Some 1) by reflexivity.
  assert (He : zlookup (tokenRangeEnd Scenario.drained_offer) 0 = Some 3) by reflexivity.
  assert (Ha : zlookup (tokensAllowed Scenario.drained_offer) 0 = Some 0) by reflexivity.
  assert (H0 : 0 <= 1) by lia.
  assert (Hmax : 3 <= uint256_max) by (vm_compute; discriminate).
  assert (Hen : 2 <= 3) by lia.
  assert (Hst : 1 <= 1) by lia.
  assert (Hlt : 1 < 2) by lia.
  assert (Hm : hasRole Scenario.env (contractAddress Scenario.drained_offer) MINTER
                 (this Scenario.env) = Some true) by reflexivity.
  assert (Hc : hasRole Scenario.env (contractAddress Scenario.drained_offer) CREATOR
                 (sender Scenario.creator) = Some true) by reflexivity.
  assert (Hover : 0 < (3 - 1) - (2 - 1)) by lia.
  exact (X14_update_beyond_supply_panics Scenario.env Scenario.creator 0 0 1 2 15 "a"
           Scenario.drained Scenario.drained_offer 1 3 0 Ho Hs He Ha H0 Hmax Hen Hst Hlt
           Hm Hc Hover).
Defined.

(** X15. [appendOfferRange] on an existing offer, with the roles held and
    the bounds in order, panics with an arithmetic error and leaves the
    state as it is when the number of tokens [end - start + 1] does not fit
    a [uint256]. *)
Theorem X15_append_width_overflow env ctx oi st en p nm σ o :
  zlookup (offerCatalog (storage σ)) oi = Some o ->
  hasRole env (contractAddress o) MINTER (this env) = Some true ->
  hasRole env (contractAddress o) CREATOR (sender ctx) = Some true ->
  st < en -> uint256_max <= en - st ->
  transact (appendOfferRange env ctx oi st en p nm) σ = (σ, Some PanicArithmetic).
Proof.
  intros Ho Hm Hc Hlt Hw. apply transact_err. unfold appendOfferRange.
  rewrite bind_load, (bind_index_some _ _ _ _ _ Ho).
  rewrite (validateRoles_run _ _ _ _ _ Hm Hc).
  unfold _validateRangeInfo. rewrite bind_require_true by (by apply Z.ltb_lt).
  unfold _appendOfferRange. rewrite bind_load, (bind_index_some _ _ _ _ _ Ho).
  destruct (Z.le_gt_cases (en - st) uint256_max).
  - rewrite bind_checked_in by lia. apply bind_checked_out. lia.
  - apply bind_checked_out. lia.
Qed.

(** X15 for the range from 0 to the largest [uint256]. *)
Lemma X15_witness :
  transact (appendOfferRange Scenario.env Scenario.creator 0 0 uint256_max 20 "b")
           Scenario.listed
  = (Scenario.listed, Some PanicArithmetic).
Proof.
  assert (Ho : zlookup (offerCatalog (storage Scenario.listed)) 0 = Some Scenario.listed_offer)
    by (vm_compute; reflexivity).
  assert (Hm : hasRole Scenario.env (contractAddress Scenario.listed_offer) MINTER
                 (this Scenario.env) = Some true) by reflexivity.
  assert (Hc : hasRole Scenario.env (contractAddress Scenario.listed_offer) CREATOR
                 (sender Scenario.creator) = Some true) by reflexivity.
  assert (Hlt : 0 < uint256_max) by (vm_compute; reflexivity).
  assert (Hwide : uint256_max <= uint256_max - 0) by lia.
  exact (X15_append_width_overflow Scenario.env Scenario.creator 0 0 uint256_max 20 "b"
           Scenario.listed Scenario.listed_offer Ho Hm Hc Hlt Hwide).
Defined.

(** *** More invariants of the catalog *)





(** *** Bounds and supplies *)

Lemma zlookup_app_cases {A} (l k : list A) r x :
  zlookup (l ++ k) r = Some x ->
  zlookup l r = Some x ∨ (len l <= r ∧ k !! Z.to_nat (r - len l) = Some x).
Proof.
  intros [H0 H]%zlookup_some. unfold len.
  destruct (decide (Z.to_nat r < length l)%nat) as [Hlt|Hge].
  - left. rewrite lookup_app_l in H by done. by apply zlookup_some.
  - right. rewrite lookup_app_r in H by lia. split; [lia|].
    replace (Z.to_nat (r - Z.of_nat (length l))) with (Z.to_nat r - length l)%nat by lia.
    done.
Qed.

Lemma ranges_bounded_push o starts ends prices names :
  wf_offer o -> length starts = length ends -> Forall2 Z.lt starts ends ->
  ranges_bounded o -> ranges_bounded (push_ranges o starts ends prices names).
Proof.
  intros (W1 & W2 & _) Hlen Hlt Hb r st en a Hs He Ha. cbn in Hs, He, Ha.
  apply zlookup_app_cases in Hs, He, Ha.
  destruct Hs as [Hs|[Hs1 Hs]], He as [He|[He1 He]], Ha as [Ha|[Ha1 Ha]];
    try (pose proof (zlookup_bounds _ _ _ Hs));
    try (pose proof (zlookup_bounds _ _ _ He));
    try (pose proof (zlookup_bounds _ _ _ Ha));
    unfold len in *; try lia.
  - by apply (Hb r st en a).
  - rewrite W1 in Hs. rewrite W2 in He.
    rewrite lookup_zip_with, Hs in Ha. cbn in Ha. rewrite He in Ha. cbn in Ha.
    injection Ha as <-. split; [|lia].
    by apply (Forall2_lookup_lr _ _ _ _ _ _ Hlt Hs He).
Qed.

Lemma same_lookup {A} (l : list A) i x y :
  zlookup l i = Some x -> zlookup l i = Some y -> x = y.
Proof. congruence. Qed.

Lemma zlookup_insert_cases {A} (l : list A) i (y : A) r x :
  0 <= i -> zlookup (<[Z.to_nat i := y]> l) r = Some x ->
  (r = i ∧ x = y ∧ is_Some (zlookup l i)) ∨ (r ≠ i ∧ zlookup l r = Some x).
Proof.
  intros Hi H. destruct (decide (r = i)) as [->|Hne].
  - left. pose proof (zlookup_bounds _ _ _ H) as Hb. rewrite len_insert in Hb.
    destruct (zlookup_in_bounds l i Hb) as [z Hz].
    rewrite (zlookup_insert_eq _ _ _ y Hz) in H. injection H as <-. eauto.
  - right. split; [done|]. by rewrite zlookup_insert_ne in H.
Qed.

Lemma catalog_change_bounded s s' k :
  catalog_change s s' k -> wf_storage s -> catalog_bounded s -> catalog_bounded s'.
Proof.
  unfold catalog_bounded, wf_storage.
  intros [Hc _|? ? ? starts ends ? ? H1 H2 H3 Hlt Hc _
          |oi o starts ends ? ? Ho H1 H2 H3 Hlt Hc _
          |oi ri o s0 e0 a st en p nm Ho Hs0 He0 Ha _ _ Hen Hst Hlt Hd Hc _
          |ci ri o a Ho Ha Hpos Hc _] Hwf Hb; rewrite Hc.
  - done.
  - apply Forall_app. split; [done|]. constructor; [|done].
    apply ranges_bounded_push; try done.
    intros r st en a H. apply zlookup_bounds in H. unfold len in H. cbn in H. lia.
  - apply Forall_insert; [done|]. apply ranges_bounded_push; try done.
    + by apply (Forall_zlookup _ _ _ _ Hwf Ho).
    + by apply (Forall_zlookup _ _ _ _ Hb Ho).
  - apply Forall_insert; [done|].
    pose proof (Forall_zlookup _ _ _ _ Hb Ho) as Hbo.
    pose proof (zlookup_bounds _ _ _ Ha) as Hri.
    intros r st' en' a' Hs' He' Ha'. cbn in Hs', He', Ha'.
    apply zlookup_insert_cases in Hs', He', Ha'; try lia.
    destruct Hs' as [(-> & -> & _)|[Hr Hs']], He' as [(? & -> & _)|[? He']],
      Ha' as [(? & -> & _)|[? Ha']]; try done.
    + destruct (Hbo ri s0 e0 a Hs0 He0 Ha). lia.
    + by apply (Hbo r).
  - apply Forall_insert; [done|].
    pose proof (Forall_zlookup _ _ _ _ Hb Ho) as Hbo.
    pose proof (zlookup_bounds _ _ _ Ha) as Hri.
    intros r st' en' a' Hs' He' Ha'. cbn in Hs', He', Ha'.
    apply zlookup_insert_cases in Ha'; try lia.
    destruct Ha' as [(-> & -> & _)|[? Ha']].
    + destruct (Hbo ri st' en' a Hs' He' Ha). lia.
    + by apply (Hbo r).
Qed.

Lemma reachable_bounded σ : reachable σ -> wf_storage (storage σ) ∧ catalog_bounded (storage σ).
Proof.
  revert σ. apply reachable_invariant.
  - intros. split; constructor.
  - intros τ t [Hwf Hb]. destruct (step_catalog_change τ t) as (k & Hk & _). split.
    + by eapply catalog_change_wf.
    + by eapply catalog_change_bounded.
Qed.

(** X17. In every reachable state each range that [getOfferRangeInfo]
    returns has its start below its end and a supply between 0 and the
    number of tokens within its bounds. *)
Theorem X17_supply_within_bounds σ ci ri a pr st en allowed price name :
  reachable σ ->
  getOfferRangeInfo ci ri σ = Ok ((a, pr, st, en, allowed, price, name), σ) ->
  st < en ∧ 0 <= allowed <= en - st + 1.
Proof.
  intros Hreach H. apply getOfferRangeInfo_ok in H.
  destruct H as (_ & o & st' & en' & a' & p' & n' & Ho & Hs & He & Ha & _ & _ & Hv).
  injection Hv as -> -> -> -> -> -> ->.
  destruct (reachable_bounded σ Hreach) as [_ Hb].
  destruct (Forall_zlookup _ _ _ _ Hb Ho ri _ _ _ Hs He Ha).
  pose proof (reachable_nonneg σ Hreach) as Hn.
  pose proof (Forall_zlookup _ _ _ _ Hn Ho) as Hno. cbn in Hno.
  pose proof (Forall_zlookup _ _ _ _ Hno Ha). cbn in *. lia.
Qed.

(** X17 for the range of the listing. *)
Lemma X17_witness : 1 < 3 ∧ 0 <= 3 <= 3 - 1 + 1.
Proof.
  assert (Hreach : reachable Scenario.listed).
  { exists 0, 50, 9000, 1000, 0, [Scenario.listing]. reflexivity. }
  assert (Hview : getOfferRangeInfo 0 0 Scenario.listed
                  = Ok ((1, 0, 1, 3, 3, 15, "a"%string), Scenario.listed))
    by (vm_compute; reflexivity).
  exact (X17_supply_within_bounds Scenario.listed 0 0 1 0 1 3 3 15 "a" Hreach Hview).
Defined.

(** *** What the catalog keeps *)

Lemma offer_kept_refl o : offer_kept o o.
Proof.
  repeat split; try done. intros r st en Hs He. exists st, en. repeat split; try done; lia.
Qed.

Lemma offer_kept_trans o1 o2 o3 : offer_kept o1 o2 -> offer_kept o2 o3 -> offer_kept o1 o3.
Proof.
  intros (A1 & N1 & P1 & L1 & B1) (A2 & N2 & P2 & L2 & B2).
  repeat split; try congruence; try lia.
  intros r st en Hs He. destruct (B1 r st en Hs He) as (st1 & en1 & Hs1 & He1 & ? & ?).
  destruct (B2 r st1 en1 Hs1 He1) as (st2 & en2 & Hs2 & He2 & ? & ?).
  exists st2, en2. repeat split; try done; lia.
Qed.

Lemma catalog_kept_refl s : catalog_kept s s.
Proof. split; [done|]. intros ci o H. exists o. split; [done|apply offer_kept_refl]. Qed.

Lemma catalog_kept_trans s1 s2 s3 : catalog_kept s1 s2 -> catalog_kept s2 s3 -> catalog_kept s1 s3.
Proof.
  intros [L1 H1] [L2 H2]. split; [lia|]. intros ci o Ho.
  destruct (H1 ci o Ho) as (o' & Ho' & ?). destruct (H2 ci o' Ho') as (o'' & Ho'' & ?).
  exists o''. split; [done|]. by eapply offer_kept_trans.
Qed.

Lemma catalog_kept_insert s s' oi o o' :
  zlookup (offerCatalog s) oi = Some o ->
  offerCatalog s' = <[Z.to_nat oi := o']> (offerCatalog s) ->
  offer_kept o o' ->
  catalog_kept s s'.
Proof.
  intros Ho Hcat Hk. split; [by rewrite Hcat, length_insert|].
  intros ci o1 Ho1. rewrite Hcat.
  destruct (decide (oi = ci)) as [->|Hne].
  - rewrite Ho in Ho1. injection Ho1 as <-.
    exists o'. split; [|done]. by apply (zlookup_insert_eq _ _ o).
  - exists o1. split; [|apply offer_kept_refl].
    rewrite zlookup_insert_ne; [done| |done]. apply zlookup_bounds in Ho. lia.
Qed.

Lemma offer_kept_push_ranges o starts ends prices names :
  offer_kept o (push_ranges o starts ends prices names).
Proof.
  repeat split; try done.
  - cbn. rewrite length_app. lia.
  - intros r st en Hs He. exists st, en. cbn.
    repeat split; try lia; by apply zlookup_app_l.
Qed.

Lemma offer_kept_update o ri s0 e0 st en a p nm :
  zlookup (tokenRangeStart o) ri = Some s0 ->
  zlookup (tokenRangeEnd o) ri = Some e0 ->
  s0 <= st -> en <= e0 ->
  offer_kept o (update_range o ri st en a p nm).
Proof.
  intros Hs0 He0 H1 H2. repeat split; try done.
  - cbn. by rewrite length_insert.
  - intros r st1 en1 Hs He. cbn.
    pose proof (zlookup_bounds _ _ _ Hs0).
    destruct (decide (ri = r)) as [->|Hne].
    + exists st, en. rewrite (zlookup_insert_eq _ _ _ _ Hs0), (zlookup_insert_eq _ _ _ _ He0).
      rewrite Hs0 in Hs. rewrite He0 in He. injection Hs as <-. injection He as <-. done.
    + exists st1, en1. rewrite !zlookup_insert_ne by (done || lia).
      repeat split; try done; lia.
Qed.

Lemma offer_kept_sold o ri a : offer_kept o (with_allowed o ri a).
Proof.
  repeat split; try done. intros r st en Hs He. exists st, en. cbn.
  repeat split; try done; lia.
Qed.

Lemma catalog_change_kept s s' k : catalog_change s s' k -> catalog_kept s s'.
Proof.
  intros [Hc _|? ? ? ? ? ? ? _ _ _ _ Hc _|oi o ? ? ? ? Ho _ _ _ _ Hc _
          |oi ri o s0 e0 a st en p nm Ho Hs0 He0 Ha _ _ Hen Hst _ Hd Hc _
          |ci ri o a Ho Ha Hpos Hc _].
  - split; [by rewrite Hc|]. intros ci o Ho. rewrite Hc. exists o.
    split; [done|apply offer_kept_refl].
  - split; [rewrite Hc, length_app; lia|]. intros ci o Ho. rewrite Hc. exists o.
    split; [by apply zlookup_app_l|apply offer_kept_refl].
  - eapply catalog_kept_insert; [done..|]. apply offer_kept_push_ranges.
  - eapply catalog_kept_insert; [done..|]. by apply (offer_kept_update _ _ s0 e0).
  - unfold sold_storage in Hc.
    eapply catalog_kept_insert; [done..|]. apply offer_kept_sold.
Qed.

Lemma run_kept txs σ : catalog_kept (storage σ) (storage (run txs σ)).
Proof.
  revert σ. induction txs as [|t txs IH]; intros σ; cbn; [apply catalog_kept_refl|].
  eapply catalog_kept_trans; [|apply IH].
  destruct (step_catalog_change σ t) as (k & Hk & _).
  by eapply catalog_change_kept.
Qed.

Lemma reachable_run txs σ : reachable σ -> reachable (run txs σ).
Proof.
  intros (owner & t & tf & nf & funds & txs0 & ->).
  exists owner, t, tf, nf, funds, (txs0 ++ txs). unfold run. by rewrite fold_left_app.
Qed.

(** X18. From a reachable state, whatever transactions follow, the
    number of offers does not decrease, an offer keeps its collection,
    product and node and its number of ranges does not decrease, and a range
    stays readable with bounds within the former ones and a supply that is
    not above the former one. *)
Theorem X18_catalog_only_grows σ txs oi a pr nd c :
  reachable σ ->
  getOfferInfo oi σ = Ok ((a, pr, nd, c), σ) ->
  let σ' := run txs σ in
  (∃ n n', getOfferCount σ = Ok (n, σ) ∧ getOfferCount σ' = Ok (n', σ') ∧ n <= n') ∧
  (∃ c', getOfferInfo oi σ' = Ok ((a, pr, nd, c'), σ') ∧ c <= c') ∧
  ∀ ri st en al p nm,
    getOfferRangeInfo oi ri σ = Ok ((a, pr, st, en, al, p, nm), σ) ->
    ∃ st' en' al' p' nm',
      getOfferRangeInfo oi ri σ' = Ok ((a, pr, st', en', al', p', nm'), σ') ∧
      st <= st' ∧ en' <= en ∧ al' <= al.
Proof.
  intros Hreach Hinfo. cbn zeta.
  destruct (run_kept txs σ) as [Hlen Hkept].
  pose proof (run_evolves txs σ) as Hev.
  pose proof (reachable_wf _ (reachable_run txs σ Hreach)) as Hwf.
  rewrite getOfferInfo_run in Hinfo.
  destruct (zlookup (offerCatalog (storage σ)) oi) as [o|] eqn:Ho; [|done].
  injection Hinfo as <- <- <- <-.
  destruct (Hkept oi o Ho) as (o' & Ho' & A & N & P & L & B).
  destruct (Hev oi o Ho) as (o'' & Ho'' & _ & Hal).
  rewrite Ho' in Ho''. injection Ho'' as <-.
  repeat split.
  - exists (len (offerCatalog (storage σ))), (len (offerCatalog (storage (run txs σ)))).
    repeat split. unfold len. lia.
  - exists (len (rangeName o')). rewrite getOfferInfo_run, Ho', A, N, P.
    split; [done|]. unfold len. lia.
  - intros ri st en al p nm Hv. apply getOfferRangeInfo_ok in Hv.
    destruct Hv as (_ & o1 & st1 & en1 & a1 & p1 & n1 & Ho1 & Hs & He & Ha & _ & _ & Hv).
    rewrite Ho in Ho1. injection Ho1 as <-.
    injection Hv as -> -> -> -> ->.
    destruct (B ri _ _ Hs He) as (st' & en' & Hs' & He' & ? & ?).
    destruct (Hal ri _ Ha) as (al' & Ha' & ?).
    destruct (Forall_zlookup _ _ _ _ Hwf Ho') as (W1 & W2 & W3 & W4).
    pose proof (zlookup_bounds _ _ _ Ha') as Hb.
    destruct (zlookup_in_bounds (rangePrice o') ri) as [p' Hp']; [unfold len in *; lia|].
    destruct (zlookup_in_bounds (rangeName o') ri) as [nm' Hn']; [unfold len in *; lia|].
    exists st', en', al', p', nm'.
    rewrite (getOfferRangeInfo_some _ _ _ o' st' en' al' p' nm') by done.
    rewrite A, P. done.
Qed.

(** X18 when a purchase and an update follow the listing. *)
Lemma X18_witness :
  ∃ c',
    getOfferInfo 0 (run [Scenario.buying 1 15; Scenario.shrinking 2 3] Scenario.listed)
    = Ok ((1, 0, 60, c'), run [Scenario.buying 1 15; Scenario.shrinking 2 3] Scenario.listed) ∧
    1 <= c'.
Proof.
  assert (Hreach : reachable Scenario.listed).
  { exists 0, 50, 9000, 1000, 0, [Scenario.listing]. reflexivity. }
  assert (Hinfo : getOfferInfo 0 Scenario.listed = Ok ((1, 0, 60, 1), Scenario.listed))
    by (vm_compute; reflexivity).
  exact (proj1 (proj2 (X18_catalog_only_grows Scenario.listed
                         [Scenario.buying 1 15; Scenario.shrinking 2 3] 0 1 0 60 1
                         Hreach Hinfo))).
Defined.

(** *** A purchase that goes through *)








(** *** A batch, one range after the other *)

Lemma for_range_ext count i body body' σ :
  (∀ j τ, i <= j < i + Z.of_nat count -> body j τ = body' j τ) ->
  for_range count i body σ = for_range count i body' σ.
Proof.
  revert i σ. induction count as [|c IH]; intros i σ H; [done|].
  cbn [for_range]. unfold bind. rewrite (H i σ) by lia.
  destruct (body' i σ) as [[[] σ1]|e]; [|done]. apply IH. intros j τ Hj. apply H. lia.
Qed.

Lemma for_range_shift count i body σ :
  for_range count (i + 1) body σ = for_range count i (fun j => body (j + 1)) σ.
Proof.
  revert i σ. induction count as [|c IH]; intros i σ; [done|].
  cbn [for_range]. unfold bind.
  destruct (body (i + 1) σ) as [[[] σ1]|e]; [|done]. apply IH.
Qed.

Lemma zlookup_cons_succ {A} (x : A) l j : 0 <= j -> zlookup (x :: l) (j + 1) = zlookup l j.
Proof.
  intros Hj. unfold zlookup.
  destruct (Z.ltb_spec (j + 1) 0); [lia|]. destruct (Z.ltb_spec j 0); [lia|].
  replace (Z.to_nat (j + 1)) with (S (Z.to_nat j)) by lia. done.
Qed.

Lemma index_cons_succ {A} (x : A) l j : 0 <= j -> index (x :: l) (j + 1) = index l j.
Proof. intros Hj. unfold index. by rewrite zlookup_cons_succ. Qed.

(** X20. A batch is its first range appended by [appendOfferRange]
    followed by the batch of the other ranges, errors included, when the
    arrays of the other ranges have the same length; and a batch of one
    range is [appendOfferRange] of that range. *)
Theorem X20_batch_is_append_then_batch env ctx oi st en p nm starts ends prices names σ :
  length starts = length ends -> length prices = length starts ->
  length names = length prices ->
  appendOfferRangeBatch env ctx oi (st :: starts) (en :: ends) (p :: prices) (nm :: names) σ
  = (let* _ := appendOfferRange env ctx oi st en p nm in
     appendOfferRangeBatch env ctx oi starts ends prices names) σ
  ∧ appendOfferRangeBatch env ctx oi [st] [en] [p] [nm] σ
    = appendOfferRange env ctx oi st en p nm σ.
Proof.
  intros H1 H2 H3.
  assert (∀ (ss es ps : list Z) (ns : list string),
            length ss = length es -> length ps = length ss -> length ns = length ps ->
            (len ss =? len es) && (len ps =? len ss) && (len ns =? len ps) = true) as Hlens.
  { intros ss es ps ns E1 E2 E3. unfold len. rewrite E3, E2, E1, !Z.eqb_refl. done. }
  assert (∀ starts ends prices names,
    length starts = length ends -> length prices = length starts ->
    length names = length prices ->
    appendOfferRangeBatch env ctx oi (st :: starts) (en :: ends) (p :: prices) (nm :: names) σ
    = (let* _ := appendOfferRange env ctx oi st en p nm in
       appendOfferRangeBatch env ctx oi starts ends prices names) σ) as Hcons.
  { clear starts ends prices names H1 H2 H3. intros starts ends prices names H1 H2 H3.
    unfold appendOfferRangeBatch at 1.
    rewrite bind_require_true by (apply Hlens; cbn [length]; congruence).
    unfold appendOfferRange. rewrite !bind_load, !bind_assoc, bind_load.
    destruct (zlookup (offerCatalog (storage σ)) oi) as [o|] eqn:Ho.
    2:{ rewrite (bind_index_none _ _ _ _ Ho), bind_assoc.
        by rewrite (bind_index_none _ _ _ _ Ho). }
    rewrite (bind_index_some _ _ _ _ _ Ho), bind_assoc, (bind_index_some _ _ _ _ _ Ho).
    rewrite bind_assoc.
    pose proof (validateRoles_cases env ctx (contractAddress o)) as Hv.
    destruct (hasRole env (contractAddress o) MINTER (this env)) as [[]|] eqn:Hm;
      [|by rewrite !(bind_err _ _ _ _ (Hv σ))..].
    destruct (hasRole env (contractAddress o) CREATOR (sender ctx)) as [[]|] eqn:Hc;
      [|by rewrite !(bind_err _ _ _ _ (Hv σ))..].
    rewrite !(bind_step _ _ _ _ _ (Hv σ)).
    cbn [length for_range].
    rewrite !bind_assoc.
    change (index (st :: starts) 0) with (ret (A := Z) st).
    rewrite bind_ret, bind_assoc.
    change (index (en :: ends) 0) with (ret (A := Z) en).
    rewrite bind_ret, !bind_assoc.
    unfold _validateRangeInfo.
    destruct (st <? en) eqn:Hlt; [|by rewrite !bind_require_false].
    rewrite !bind_require_true by done.
    rewrite bind_assoc.
    change (index (p :: prices) 0) with (ret (A := Z) p).
    rewrite bind_ret, bind_assoc.
    change (index (nm :: names) 0) with (ret (A := string) nm).
    rewrite bind_ret.
    destruct (_appendOfferRange oi st en p nm σ) as [[[] σ1]|e] eqn:Happ;
      [|by rewrite !(bind_err _ _ _ _ Happ)].
    rewrite !(bind_step _ _ _ _ _ Happ).
    apply appendOfferRange_internal_ok in Happ.
    destruct Happ as (o' & Ho' & _ & _ & _ & Hs1 & _ & _).
    rewrite Ho in Ho'. injection Ho' as <-.
    unfold appendOfferRangeBatch.
    rewrite bind_require_true by (by apply Hlens).
    rewrite bind_load.
    assert (zlookup (offerCatalog (storage σ1)) oi = Some (push_range o st en p nm)) as Ho1.
    { rewrite Hs1. cbn. by apply (zlookup_insert_eq _ _ o). }
    rewrite (bind_index_some _ _ _ _ _ Ho1).
    rewrite (bind_step _ _ _ _ _ (Hv σ1)).
    change (0 + 1) with (0 + 1). rewrite for_range_shift.
    apply for_range_ext. intros j τ Hj.
    rewrite !index_cons_succ by lia. done. }
  split; [by apply Hcons|].
  rewrite (Hcons [] [] [] []) by done.
  destruct (appendOfferRange env ctx oi st en p nm σ) as [[[] σ1]|e] eqn:Happ;
    [|by rewrite (bind_err _ _ _ _ Happ)].
  rewrite (bind_step _ _ _ _ _ Happ).
  apply appendOfferRange_ok in Happ.
  destruct Happ as (o & Ho & Hm & Hc & _ & _ & _ & Hs1 & _ & _).
  unfold appendOfferRangeBatch.
  rewrite bind_require_true by done. rewrite bind_load.
  assert (zlookup (offerCatalog (storage σ1)) oi = Some (push_range o st en p nm)) as Ho1.
  { rewrite Hs1. cbn. by apply (zlookup_insert_eq _ _ o). }
  rewrite (bind_index_some _ _ _ _ _ Ho1).
  by rewrite validateRoles_run.
Qed.

(** X20 for the batch of the one range of tokens 5 to 9. *)
Lemma X20_witness :
  appendOfferRangeBatch Scenario.env Scenario.creator 0 [5] [9] [20] ["b"%string]
    Scenario.listed
  = appendOfferRange Scenario.env Scenario.creator 0 5 9 20 "b" Scenario.listed.
Proof.
  assert (H1 : length (@nil Z) = length (@nil Z)) by reflexivity.
  assert (H3 : length (@nil string) = length (@nil Z)) by reflexivity.
  exact (proj2 (X20_batch_is_append_then_batch Scenario.env Scenario.creator 0 5 9 20 "b"
                  [] [] [] [] Scenario.listed H1 H1 H3)).
Defined.

(** *** The settings *)






(** *** The events of a listing *)

Lemma range_events_snoc a pr oi b starts ends prices names st en p nm :
  length starts = length ends -> length prices = length starts ->
  length names = length prices ->
  range_events a pr oi b (starts ++ [st]) (ends ++ [en]) (prices ++ [p]) (names ++ [nm])
  = range_events a pr oi b starts ends prices names
    ++ [Emit (AppendedRange a pr oi (b + len starts) st en p nm)].
Proof.
  revert b ends prices names.
  induction starts as [|s starts IH]; intros b [|e ends] [|q prices] [|n names] H1 H2 H3;
    try discriminate.
  - cbn. by rewrite Z.add_0_r.
  - cbn [app range_events]. rewrite IH by (cbn in *; lia).
    replace (b + len (s :: starts)) with (b + 1 + len starts)
      by (unfold len; cbn [length]; lia).
    reflexivity.
Qed.

Lemma push_loop_log s0 oi o0 starts ends prices names body σ σ' :
  storage σ = s0 ->
  zlookup (offerCatalog s0) oi = Some o0 ->
  length starts = length ends -> length prices = length starts ->
  length names = length prices ->
  (∀ j τ τ', 0 <= j ->
     pushed s0 oi o0 starts ends prices names (Z.to_nat j) (storage τ) ->
     body j τ = Ok (tt, τ') ->
     ∃ st en p nm,
       starts !! Z.to_nat j = Some st ∧ ends !! Z.to_nat j = Some en ∧
       prices !! Z.to_nat j = Some p ∧ names !! Z.to_nat j = Some nm ∧
       st < en ∧ _appendOfferRange oi st en p nm τ = Ok (tt, τ')) ->
  for_range (length names) 0 body σ = Ok (tt, σ') ->
  log σ' = log σ ++ range_events (contractAddress o0) (productIndex o0) oi
                                 (len (rangeName o0)) starts ends prices names ∧
  balance σ' = balance σ.
Proof.
  intros Hs H0 H1 H2 H3 Hbody H.
  eapply (for_range_inv
            (fun j τ => 0 <= j ∧
               pushed s0 oi o0 starts ends prices names (Z.to_nat j) (storage τ) ∧
               log τ = log σ ++ range_events (contractAddress o0) (productIndex o0) oi
                                  (len (rangeName o0))
                                  (take (Z.to_nat j) starts) (take (Z.to_nat j) ends)
                                  (take (Z.to_nat j) prices) (take (Z.to_nat j) names) ∧
               balance τ = balance σ)) in H.
  - destruct H as (_ & _ & Hlog & Hbal). split; [|done].
    rewrite Hlog. rewrite !firstn_all2 by lia. done.
  - intros j τ τ' Hj (_ & HI & Hlog & Hbal) Hb.
    destruct (Hbody j τ τ') as (st & en & p & nm & Hst & Hen & Hp & Hnm & Hlt & Happ);
      [lia|done..|].
    replace (Z.to_nat (j + 1)) with (S (Z.to_nat j)) by lia.
    split; [lia|]. split; [by eapply pushed_step|].
    pose proof (pushed_lookup _ _ _ _ _ _ _ _ _ H0 HI) as Hcur.
    apply appendOfferRange_internal_ok in Happ.
    destruct Happ as (o & Ho & _ & _ & _ & _ & Hbal' & Hlog').
    rewrite Hcur in Ho. injection Ho as <-.
    cbn [contractAddress productIndex rangeName push_ranges] in Hlog'.
    split; [|congruence].
    rewrite Hlog', Hlog.
    rewrite (take_S_r _ _ _ Hst), (take_S_r _ _ _ Hen), (take_S_r _ _ _ Hp),
      (take_S_r _ _ _ Hnm).
    apply lookup_lt_Some in Hst, Hnm.
    rewrite range_events_snoc by (rewrite !length_take; lia).
    rewrite <- app_assoc. rewrite len_app.
    replace (len (take (Z.to_nat j) names)) with (len (take (Z.to_nat j) starts))
      by (unfold len; rewrite !length_take; lia).
    reflexivity.
  - split; [lia|]. split; [rewrite Hs; by apply pushed_start|].
    change (Z.to_nat 0) with 0%nat. rewrite !take_0. cbn. by rewrite app_nil_r.
Qed.

(** X22. A successful [appendOfferRangeBatch] adds to the log one
    [AppendedRange] event for each range, in the order given, with the range
    indices counted from the number of ranges the offer had, and nothing
    else; a successful [addOffer] adds those events with the index of the new
    offer and range indices from 0, then [AddedOffer] with the number of
    ranges and that offer index. Neither changes the balance. *)
Theorem X22_listing_events env ctx σ σ' :
  (∀ oi starts ends prices names o,
     appendOfferRangeBatch env ctx oi starts ends prices names σ = Ok (tt, σ') ->
     zlookup (offerCatalog (storage σ)) oi = Some o ->
     log σ' = log σ ++ range_events (contractAddress o) (productIndex o) oi
                                    (len (rangeName o)) starts ends prices names ∧
     balance σ' = balance σ) ∧
  (∀ token product starts ends prices names node,
     addOffer env ctx token product starts ends prices names node σ = Ok (tt, σ') ->
     log σ' = log σ
              ++ range_events token product (len (offerCatalog (storage σ))) 0
                              starts ends prices names
              ++ [Emit (AddedOffer token product (len names) (len (offerCatalog (storage σ))))] ∧
     balance σ' = balance σ).
Proof.
  split.
  - intros oi starts ends prices names o H Ho.
    unfold appendOfferRangeBatch, validateRoles in H.
    repeat exec_ok H. subst.
    apply andb_true_iff in Hreq as [Hreq H3]. apply andb_true_iff in Hreq as [H1 H2].
    apply len_eq in H1, H2, H3.
    rewrite Ho in Hidx. injection Hidx as <-.
    eapply (push_loop_log (storage σ) oi o starts ends prices names) in H;
      [done|reflexivity|done..|].
    clear H. intros j τ τ' Hj _ Hb. unfold _validateRangeInfo in Hb.
    repeat exec_ok Hb. bool_to_prop.
    repeat match goal with
    | H : zlookup _ _ = Some _ |- _ => apply zlookup_some in H; destruct H as [_ H]
    end.
    eexists _, _, _, _. repeat split; eassumption.
  - intros token product starts ends prices names node H.
    set (cat := offerCatalog (storage σ)).
    assert (∀ σ0,
      offerCatalog (storage σ0) = cat ++ [mkOffer token node product [] [] [] [] []] ->
      length starts = length ends -> length prices = length starts ->
      length names = length prices ->
      (let* _ :=
         for_range (length names) 0 (fun i =>
           let* startToken := index starts i in
           let* endToken := index ends i in
           let* _ := _validateRangeInfo startToken endToken in
           let* s := load in
           let* last := checked uint256_max (len (offerCatalog s) - 1) in
           let* price := index prices i in
           let* name := index names i in
           _appendOfferRange last startToken endToken price name) in
       let* s := load in
       let* last := checked uint256_max (len (offerCatalog s) - 1) in
       let* _ := store (set_contractToOffer (<[token := last]> (_contractToOffer s)) s) in
       emit (AddedOffer token product (len names) last)) σ0 = Ok (tt, σ') ->
      log σ' = log σ0 ++ range_events token product (len cat) 0 starts ends prices names
               ++ [Emit (AddedOffer token product (len names) (len cat))] ∧
      balance σ' = balance σ0) as Hloop.
    { clear H. intros σ0 Hcat H1 H2 H3 H.
      apply bind_ok in H. destruct H as ([] & σ1 & Hloop & H).
      assert (Hnew : zlookup (offerCatalog (storage σ0)) (len cat)
                     = Some (mkOffer token node product [] [] [] [] [])).
      { rewrite Hcat. apply zlookup_app_len. }
      pose proof Hloop as Hpushed.
      eapply (push_loop (storage σ0) (len cat) _ starts ends prices names)
        in Hpushed; [|reflexivity|exact Hnew|done|].
      eapply (push_loop_log (storage σ0) (len cat) _ starts ends prices names)
        in Hloop; [|reflexivity|exact Hnew|done..|].
      - destruct (pushed_all _ _ _ _ _ _ _ _ H1 H2 H3 Hpushed) as (Hc & _).
        destruct Hloop as [Hlog Hbal]. cbn in Hlog.
        repeat exec_ok H. injection H as <-. cbn [log balance].
        rewrite Hc, len_insert, Hcat, len_app. change (len [_]) with 1.
        replace (len cat + 1 - 1) with (len cat) by lia.
        split; [|done]. rewrite Hlog. by rewrite <- app_assoc.
      - clear H Hloop. intros j τ τ' Hj HI Hb. unfold _validateRangeInfo in Hb.
        repeat exec_ok Hb. bool_to_prop.
        destruct HI as (Hc & _).
        rewrite Hc, len_insert, Hcat, len_app in Hb. change (len [_]) with 1 in Hb.
        replace (len cat + 1 - 1) with (len cat) in Hb by lia.
        repeat match goal with
        | H : zlookup _ _ = Some _ |- _ => apply zlookup_some in H; destruct H as [_ H]
        end.
        eexists _, _, _, _. repeat split; eassumption.
      - clear H Hloop. intros j τ τ' Hj HI Hb. unfold _validateRangeInfo in Hb.
        repeat exec_ok Hb. bool_to_prop.
        destruct HI as (Hc & _).
        rewrite Hc, len_insert, Hcat, len_app in Hb. change (len [_]) with 1 in Hb.
        replace (len cat + 1 - 1) with (len cat) in Hb by lia.
        repeat match goal with
        | H : zlookup _ _ = Some _ |- _ => apply zlookup_some in H; destruct H as [_ H]
        end.
        eexists _, _, _, _. repeat split; eassumption. }
    unfold addOffer, validateRoles in H.
    repeat exec_ok H.
    all: subst; bool_to_prop.
    all: repeat match goal with H : len _ = len _ |- _ => apply len_inj in H end.
    all: eapply Hloop in H; [|reflexivity|done..].
    all: exact H.
Qed.

(** X22 for the listing. *)
Lemma X22_witness :
  log Scenario.listed
  = log Scenario.start
    ++ range_events 1 0 (len (offerCatalog (storage Scenario.start))) 0 [1] [3] [15]
         ["a"%string]
    ++ [Emit (AddedOffer 1 0 (len ["a"%string]) (len (offerCatalog (storage Scenario.start))))]
  ∧ balance Scenario.listed = balance Scenario.start.
Proof.
  assert (Hlist : addOffer Scenario.env Scenario.creator 1 0 [1] [3] [15] ["a"%string] 60
                    Scenario.start = Ok (tt, Scenario.listed)) by (vm_compute; reflexivity).
  exact (proj2 (X22_listing_events Scenario.env Scenario.creator Scenario.start
                  Scenario.listed) 1 0 [1] [3] [15] ["a"%string] 60 Hlist).
Defined.
